(** * The job catalog: storage service, query engine and access gate

    A shallow embedding of [src/services/jobStorageService.ts] (class
    [JobStorageService]), of the cache, the search, the recommendations and
    the market analytics of [src/services/jobService.ts], and of what the
    handlers of the admin job manager component do to the store, to its
    form lists and to its selection, followed by the properties of the
    catalog that the specification states and by further properties that
    the code has.

    Conventions of the embedding.
    - JavaScript strings are [string]; text is taken to be ASCII, so that
      [toLowerCase] only moves the letters [A]-[Z].
    - JavaScript numbers that the code computes with are integers
      (milliseconds, days): they are [Z], and [NaN] is a constructor of
      its own in [number].
    - [undefined] is [None]; a loosely typed payload ([any]) is a record of
      optional fields, each of the type the [Job] interface expects.
    - [this.jobs] and [localStorage] form the mutable state [World]; the
      clock and [Math.random] are oracles indexed by the number of reads
      made so far.  The text stored under a key is represented by the value
      it encodes ([JSON.stringify] is not spelled out).
    - [setItem] succeeds in the service of section [Service]; the module
      [Fallible] is the service on a storage that can refuse a write. *)

From Stdlib Require Import ZArith String Ascii List Bool Lia.
From Stdlib Require Import DecimalString DecimalZ DecimalPos Sorted.
From stdpp Require Import gmap strings list.

Local Open Scope Z_scope.

(** ** Strings *)

Module Str.

(** [c.toLowerCase()] for one ASCII character. *)
Definition lower_ascii (c : ascii) : ascii :=
  let n := N_of_ascii c in
  if ((65 <=? n) && (n <=? 90))%N then ascii_of_N (n + 32) else c.

(** [s.toLowerCase()] *)
Fixpoint toLowerCase (s : string) : string :=
  match s with
  | EmptyString => EmptyString
  | String c s' => String (lower_ascii c) (toLowerCase s')
  end.

(** [hay.includes(needle)] *)
Fixpoint includes (hay needle : string) : bool :=
  String.prefix needle hay
  || match hay with
     | EmptyString => false
     | String _ hay' => includes hay' needle
     end.

(** [parts.join(sep)] *)
Fixpoint join (sep : string) (parts : list string) : string :=
  match parts with
  | [] => ""
  | [p] => p
  | p :: ps => p +:+ sep +:+ join sep ps
  end.

(** Truthiness of a string: [""] is falsy. *)
Definition nonempty (s : string) : bool :=
  match s with EmptyString => false | String _ _ => true end.

(** [a || d] where [a] is a string or [undefined] and [d] a string. *)
Definition or_else (a : option string) (d : string) : string :=
  match a with
  | Some s => if nonempty s then s else d
  | None => d
  end.

(** [a || b] where both may be [undefined]; the falsy [""] of [b] is kept,
    as [||] returns its right operand when the left one is falsy. *)
Definition or_opt (a b : option string) : option string :=
  match a with
  | Some s => if nonempty s then Some s else b
  | None => b
  end.

(** [a] when it is truthy: the left operand of an [||] or the test of a
    conditional. *)
Definition truthy (a : option string) : option string := or_opt a None.

(** [s] has no blank at either end, i.e. [s.trim() === s]. *)
Definition is_space (c : ascii) : bool :=
  let n := N_of_ascii c in
  ((n =? 32) || ((9 <=? n) && (n <=? 13)))%N.

Fixpoint last_char (s : string) : option ascii :=
  match s with
  | EmptyString => None
  | String c EmptyString => Some c
  | String _ s' => last_char s'
  end.

Definition trimmed (s : string) : bool :=
  match s with
  | EmptyString => true
  | String c _ =>
      negb (is_space c)
      && match last_char s with Some d => negb (is_space d) | None => true end
  end.

(** No character of [s] is the blank [" "]. *)
Fixpoint no_blank (s : string) : bool :=
  match s with
  | EmptyString => true
  | String c s' => negb (Ascii.eqb c " ") && no_blank s'
  end.

(** The character [c] does not occur in [s]. *)
Fixpoint lacks (c : ascii) (s : string) : bool :=
  match s with
  | EmptyString => true
  | String d s' => negb (Ascii.eqb d c) && lacks c s'
  end.

End Str.

(** ** Numbers *)

(** A JavaScript number as the code uses it: an integer or [NaN]. *)
Inductive number : Type :=
  | NaN
  | Int (z : Z).

Module Num.

(** [a - b] *)
Definition sub (a b : number) : number :=
  match a, b with
  | Int x, Int y => Int (x - y)
  | _, _ => NaN
  end.

(** [Math.abs(a)] *)
Definition abs (a : number) : number :=
  match a with
  | Int x => Int (Z.abs x)
  | NaN => NaN
  end.

(** [Math.ceil(a / k)] for a positive integer constant [k]. *)
Definition ceil_div (a : number) (k : Z) : number :=
  match a with
  | Int x => Int (- ((- x) / k))
  | NaN => NaN
  end.

(** [a === k] *)
Definition eqb (a : number) (k : Z) : bool :=
  match a with
  | Int x => x =? k
  | NaN => false
  end.

(** [a < k] *)
Definition ltb (a : number) (k : Z) : bool :=
  match a with
  | Int x => x <? k
  | NaN => false
  end.

(** The decimal text of an integer, as a template literal prints it. *)
Definition string_of_Z (z : Z) : string :=
  NilZero.string_of_int (Z.to_int z).

(** [`${a}`] *)
Definition to_string (a : number) : string :=
  match a with
  | Int x => string_of_Z x
  | NaN => "NaN"
  end.

End Num.

(** ** Data model *)

(** [source: 'api' | 'admin'] *)
Inductive Source : Type :=
  | api
  | admin.

Definition Source_eqb (a b : Source) : bool :=
  match a, b with
  | api, api | admin, admin => true
  | _, _ => false
  end.

(** [interface Job] *)
Module Job.
Record t : Type := mk {
  id : string;
  title : string;
  company : string;
  location : string;
  type : string;
  experience : string;
  salary : string;
  description : string;
  requirements : list string;
  posted : string;
  url : string;
  logo : string;
  remote : bool;
  skills : list string;
  application_link : option string;
  created_at : string;
  updated_at : string;
  source : Source
}.
End Job.

(** [Omit<Job, 'id' | 'created_at' | 'updated_at' | 'source'>], the argument
    of [addJob]. *)
Module JobData.
Record t : Type := mk {
  title : string;
  company : string;
  location : string;
  type : string;
  experience : string;
  salary : string;
  description : string;
  requirements : list string;
  posted : string;
  url : string;
  logo : string;
  remote : bool;
  skills : list string;
  application_link : option string
}.
End JobData.

(** [Partial<Job>], the argument of [updateJob]: [None] is a key that the
    object does not have.  The one optional field of [Job] may be present
    with the value [undefined]. *)
Module Partial.
Record t : Type := mk {
  id : option string;
  title : option string;
  company : option string;
  location : option string;
  type : option string;
  experience : option string;
  salary : option string;
  description : option string;
  requirements : option (list string);
  posted : option string;
  url : option string;
  logo : option string;
  remote : option bool;
  skills : option (list string);
  application_link : option (option string);
  created_at : option string;
  updated_at : option string;
  source : option Source
}.

(** The object [{}]. *)
Definition empty : t :=
  mk None None None None None None None None None None None None None None
     None None None None.
End Partial.

(** [interface JobFilters] *)
Module JobFilters.
Record t : Type := mk {
  location : option string;
  type : option string;
  experience : option string;
  remote : option bool;
  skills : option (list string)
}.

(** The object [{}]. *)
Definition empty : t := mk None None None None None.
End JobFilters.

(** One element of the [any[]] that the remote provider returns: the keys
    that [normalizeAPIJobs] reads. *)
Module ApiJob.
Record t : Type := mk {
  id : option string;
  title : option string;
  company : option string;
  location : option string;
  job_type : option string;
  type : option string;
  experience : option string;
  experience_level : option string;
  salary : option string;
  salary_range : option string;
  description : option string;
  requirements : option (list string);
  skills : option (list string);
  created_at : option string;
  application_link : option string;
  url : option string;
  logo : option string;
  company_logo : option string;
  remote : option bool;
  is_remote : option bool
}.

(** The object [{}]. *)
Definition empty : t :=
  mk None None None None None None None None None None None None None None
     None None None None None None.
End ApiJob.

(** ** The mutable state and the host *)

(** What [localStorage] holds under a key: a text, or the JSON text of a
    job array, represented by the array it encodes. *)
Inductive Stored : Type :=
  | Text (s : string)
  | Json (js : list Job.t).

(** The state that the service reads and writes: the field [this.jobs] of
    the singleton, [localStorage], and how many times the clock and
    [Math.random] have been read. *)
Record World : Type := mkWorld {
  jobs : list Job.t;
  localStorage : gmap string Stored;
  clock_reads : nat;
  random_draws : nat
}.

Definition STORAGE_KEY : string := "careerpanda_jobs".
Definition ADMIN_SESSION_KEY : string := "careerpanda_admin_session".
Definition ADMIN_PASSCODE : string := "723899".

(** State passing: a computation takes the state and returns its result
    with the state it leaves. *)
Definition M (A : Type) : Type := World -> A * World.

Definition ret {A : Type} (a : A) : M A := fun w => (a, w).

Definition bind {A B : Type} (c : M A) (k : A -> M B) : M B :=
  fun w => let (a, w') := c w in k a w'.

Notation "'let*' x ':=' c 'in' k" := (bind c (fun x => k))
  (at level 10, x name, c at level 100, k at level 200).

Notation "c1 '>>' c2" := (bind c1 (fun _ => c2))
  (at level 100, c2 at level 200, right associativity).

(** [this.jobs] and [this.jobs = l] *)
Definition get_jobs : M (list Job.t) := fun w => (jobs w, w).

Definition set_jobs (l : list Job.t) : M unit :=
  fun w => (tt, mkWorld l (localStorage w) (clock_reads w) (random_draws w)).

(** [localStorage.getItem], [setItem] and [removeItem] *)
Definition getItem (k : string) : M (option Stored) :=
  fun w => (localStorage w !! k, w).

Definition setItem (k : string) (v : Stored) : M unit :=
  fun w => (tt, mkWorld (jobs w) (<[k := v]> (localStorage w))
                        (clock_reads w) (random_draws w)).

Definition removeItem (k : string) : M unit :=
  fun w => (tt, mkWorld (jobs w) (delete k (localStorage w))
                        (clock_reads w) (random_draws w)).

(** The response of the remote provider to [fetch]. *)
Inductive ApiData : Type :=
  | DataArray (l : list ApiJob.t)
  | DataObject (jobs data : option (list ApiJob.t)).

(** How the [fetch] of [searchJobs] ends: the promise rejects, or resolves
    to a response with its [ok] flag and the outcome of [response.json()]
    ([None] when the body does not parse). *)
Inductive FetchOutcome : Type :=
  | NetworkError
  | Response (ok : bool) (body : option ApiData).

(** What the JavaScript host provides.
    - [Date_parse s] is [new Date(s).getTime()]: the host's date parser,
      [NaN] for a text that it does not accept as a date;
    - [toISOString t] is [new Date(t).toISOString()];
    - [clock n] is the reading of the clock at its n-th read, in
      milliseconds;
    - [random_suffix n] is [Math.random().toString(36).substr(2, 9)] at the
      n-th draw. *)
Record Host : Type := mkHost {
  Date_parse : string -> number;
  toISOString : Z -> string;
  clock : nat -> Z;
  random_suffix : nat -> string
}.

Section Service.

Variable host : Host.

(** [Date.now()], also the instant of [new Date()] *)
Definition Date_now : M Z :=
  fun w => (clock host (clock_reads w),
            mkWorld (jobs w) (localStorage w) (S (clock_reads w))
                    (random_draws w)).

Definition Math_random_suffix : M string :=
  fun w => (random_suffix host (random_draws w),
            mkWorld (jobs w) (localStorage w) (clock_reads w)
                    (S (random_draws w))).

(** [new Date().toISOString()] *)
Definition now_iso : M string :=
  let* t := Date_now in ret (toISOString host t).

(** *** JobStorageService *)

(** [saveToStorage] on a storage that accepts the write: the handler of
    its [try] only logs, and is not reached.  [Fallible.saveToStorage] is
    the method on a storage that can refuse. *)
Definition saveToStorage : M unit :=
  let* js := get_jobs in setItem STORAGE_KEY (Json js).

(** [getAllJobs] *)
Definition getAllJobs : M (list Job.t) := get_jobs.

(** The text that the query of [getFilteredJobs] is matched against. *)
Definition searchableText (job : Job.t) : string :=
  Job.title job +:+ " " +:+ Job.company job +:+ " " +:+
  Job.description job +:+ " " +:+ Str.join " " (Job.skills job).

(** The body of [getFilteredJobs] on a copy of [this.jobs]. *)
Definition filterBy (query : string) (filters : JobFilters.t)
    (filteredJobs : list Job.t) : list Job.t :=
  let filteredJobs :=
    if Str.nonempty query then
      let searchTerm := Str.toLowerCase query in
      List.filter (fun job =>
        Str.includes (Str.toLowerCase (searchableText job)) searchTerm)
        filteredJobs
    else filteredJobs in
  let filteredJobs :=
    match JobFilters.location filters with
    | Some loc =>
        if Str.nonempty loc then
          List.filter (fun job =>
            Str.includes (Str.toLowerCase (Job.location job))
                         (Str.toLowerCase loc)) filteredJobs
        else filteredJobs
    | None => filteredJobs
    end in
  let filteredJobs :=
    match JobFilters.type filters with
    | Some ty =>
        if Str.nonempty ty then
          List.filter (fun job => String.eqb (Job.type job) ty) filteredJobs
        else filteredJobs
    | None => filteredJobs
    end in
  let filteredJobs :=
    match JobFilters.experience filters with
    | Some ex =>
        if Str.nonempty ex then
          List.filter (fun job =>
            Str.includes (Str.toLowerCase (Job.experience job))
                         (Str.toLowerCase ex)) filteredJobs
        else filteredJobs
    | None => filteredJobs
    end in
  let filteredJobs :=
    match JobFilters.remote filters with
    | Some r =>
        List.filter (fun job => Bool.eqb (Job.remote job) r) filteredJobs
    | None => filteredJobs
    end in
  let filteredJobs :=
    match JobFilters.skills filters with
    | Some ((_ :: _) as wanted) =>
        List.filter (fun job =>
          existsb (fun skill =>
            existsb (fun jobSkill =>
              Str.includes (Str.toLowerCase jobSkill)
                           (Str.toLowerCase skill)) (Job.skills job))
            wanted) filteredJobs
    | _ => filteredJobs
    end in
  filteredJobs.

(** [getFilteredJobs(query, filters)] *)
Definition getFilteredJobs (query : string) (filters : JobFilters.t)
    : M (list Job.t) :=
  let* js := get_jobs in ret (filterBy query filters js).

(** [getJobById] *)
Definition getJobById (id : string) : M (option Job.t) :=
  let* js := get_jobs in
  ret (List.find (fun job => String.eqb (Job.id job) id) js).

(** [formatDate] for a given reading [now] of the clock.  Nothing in the
    body of its [try] throws: a text that is no date makes [getTime()]
    return [NaN], and the arithmetic carries the [NaN] on. *)
Definition formatDate_at (now : Z) (dateString : string) : string :=
  let date := Date_parse host dateString in
  let diffTime := Num.abs (Num.sub (Int now) date) in
  let diffDays := Num.ceil_div diffTime (1000 * 60 * 60 * 24) in
  if Num.eqb diffDays 1 then "1 day ago"
  else if Num.ltb diffDays 7 then Num.to_string diffDays +:+ " days ago"
  else if Num.ltb diffDays 30 then
    Num.to_string (Num.ceil_div diffDays 7) +:+ " weeks ago"
  else Num.to_string (Num.ceil_div diffDays 30) +:+ " months ago".

(** [formatDate] *)
Definition formatDate (dateString : string) : M string :=
  let* now := Date_now in ret (formatDate_at now dateString).

(** [a || b || []] on arrays: an array is truthy, also when empty. *)
Definition or_list (a b : option (list string)) : list string :=
  match a, b with
  | Some l, _ => l
  | None, Some l => l
  | None, None => []
  end.

(** [a || b || false] on booleans. *)
Definition or_bool (a b : option bool) : bool :=
  match a, b with
  | Some true, _ => true
  | _, Some r => r
  | _, None => false
  end.

(** The callback of the [map] in [normalizeAPIJobs]; the properties of the
    object literal are evaluated in the order they are written. *)
Definition normalizeAPIJob (job : ApiJob.t) (index : nat) : M Job.t :=
  let* id :=
    match Str.truthy (ApiJob.id job) with
    | Some s => ret s
    | None =>
        let* t := Date_now in
        ret ("api_job_" +:+ Num.string_of_Z t +:+ "_" +:+
             Num.string_of_Z (Z.of_nat index))
    end in
  let* posted :=
    match Str.truthy (ApiJob.created_at job) with
    | Some s => formatDate s
    | None => ret "Recently"
    end in
  let* created_at :=
    match Str.truthy (ApiJob.created_at job) with
    | Some s => ret s
    | None => now_iso
    end in
  let* updated_at := now_iso in
  ret {|
    Job.id := id;
    Job.title := Str.or_else (ApiJob.title job) "Job Position";
    Job.company := Str.or_else (ApiJob.company job) "Company";
    Job.location := Str.or_else (ApiJob.location job) "Location";
    Job.type :=
      Str.or_else (Str.or_opt (ApiJob.job_type job) (ApiJob.type job))
                  "full-time";
    Job.experience :=
      Str.or_else (Str.or_opt (ApiJob.experience job)
                              (ApiJob.experience_level job))
                  "Not specified";
    Job.salary :=
      Str.or_else (Str.or_opt (ApiJob.salary job) (ApiJob.salary_range job))
                  "Competitive";
    Job.description :=
      Str.or_else (ApiJob.description job) "No description available";
    Job.requirements := or_list (ApiJob.requirements job) (ApiJob.skills job);
    Job.posted := posted;
    Job.url :=
      Str.or_else (Str.or_opt (ApiJob.application_link job) (ApiJob.url job))
                  "#";
    Job.logo :=
      Str.or_else (Str.or_opt (ApiJob.logo job) (ApiJob.company_logo job)) "";
    Job.remote := or_bool (ApiJob.remote job) (ApiJob.is_remote job);
    Job.skills := or_list (ApiJob.skills job) (ApiJob.requirements job);
    Job.application_link := ApiJob.application_link job;
    Job.created_at := created_at;
    Job.updated_at := updated_at;
    Job.source := api
  |}.

(** [apiJobs.map(callback)] from position [index] on. *)
Fixpoint normalizeFrom (index : nat) (apiJobs : list ApiJob.t)
    : M (list Job.t) :=
  match apiJobs with
  | [] => ret []
  | job :: rest =>
      let* j := normalizeAPIJob job index in
      let* js := normalizeFrom (S index) rest in
      ret (j :: js)
  end.

(** [normalizeAPIJobs] *)
Definition normalizeAPIJobs (apiJobs : list ApiJob.t) : M (list Job.t) :=
  normalizeFrom 0 apiJobs.

(** [syncJobsFromAPI] *)
Definition syncJobsFromAPI (apiJobs : list ApiJob.t) : M unit :=
  let* normalizedJobs := normalizeAPIJobs apiJobs in
  let* js := get_jobs in
  set_jobs (List.filter (fun job => Source_eqb (Job.source job) admin) js
            ++ normalizedJobs) >>
  saveToStorage.

(** [generateId] *)
Definition generateId : M string :=
  let* t := Date_now in
  let* r := Math_random_suffix in
  ret ("job_" +:+ Num.string_of_Z t +:+ "_" +:+ r).

(** [addJob] *)
Definition addJob (jobData : JobData.t) : M Job.t :=
  let* id := generateId in
  let* created_at := now_iso in
  let* updated_at := now_iso in
  let newJob := {|
    Job.id := id;
    Job.title := JobData.title jobData;
    Job.company := JobData.company jobData;
    Job.location := JobData.location jobData;
    Job.type := JobData.type jobData;
    Job.experience := JobData.experience jobData;
    Job.salary := JobData.salary jobData;
    Job.description := JobData.description jobData;
    Job.requirements := JobData.requirements jobData;
    Job.posted := JobData.posted jobData;
    Job.url := JobData.url jobData;
    Job.logo := JobData.logo jobData;
    Job.remote := JobData.remote jobData;
    Job.skills := JobData.skills jobData;
    Job.application_link := JobData.application_link jobData;
    Job.created_at := created_at;
    Job.updated_at := updated_at;
    Job.source := admin
  |} in
  let* js := get_jobs in
  set_jobs (newJob :: js) >>
  saveToStorage >>
  ret newJob.

(** A key of the second spread object wins over the first. *)
Definition over {A : Type} (old : A) (new : option A) : A :=
  match new with
  | Some v => v
  | None => old
  end.

(** [{ ...job, ...updates, updated_at: stamp }] *)
Definition merge (job : Job.t) (updates : Partial.t) (stamp : string)
    : Job.t := {|
  Job.id := over (Job.id job) (Partial.id updates);
  Job.title := over (Job.title job) (Partial.title updates);
  Job.company := over (Job.company job) (Partial.company updates);
  Job.location := over (Job.location job) (Partial.location updates);
  Job.type := over (Job.type job) (Partial.type updates);
  Job.experience := over (Job.experience job) (Partial.experience updates);
  Job.salary := over (Job.salary job) (Partial.salary updates);
  Job.description := over (Job.description job) (Partial.description updates);
  Job.requirements :=
    over (Job.requirements job) (Partial.requirements updates);
  Job.posted := over (Job.posted job) (Partial.posted updates);
  Job.url := over (Job.url job) (Partial.url updates);
  Job.logo := over (Job.logo job) (Partial.logo updates);
  Job.remote := over (Job.remote job) (Partial.remote updates);
  Job.skills := over (Job.skills job) (Partial.skills updates);
  Job.application_link :=
    over (Job.application_link job) (Partial.application_link updates);
  Job.created_at := over (Job.created_at job) (Partial.created_at updates);
  Job.updated_at := stamp;
  Job.source := over (Job.source job) (Partial.source updates)
|}.

(** [l.findIndex(job => job.id === id)], [None] for [-1]. *)
Definition findIndex (id : string) (l : list Job.t) : option nat :=
  fst <$> list_find (fun job => Job.id job = id) l.

(** [updateJob] *)
Definition updateJob (id : string) (updates : Partial.t)
    : M (option Job.t) :=
  let* js := get_jobs in
  match findIndex id js with
  | None => ret None
  | Some index =>
      match js !! index with
      | None => ret None
      | Some job =>
          let* stamp := now_iso in
          let updated := merge job updates stamp in
          set_jobs (<[index := updated]> js) >>
          saveToStorage >>
          ret (Some updated)
      end
  end.

(** [authenticateAdmin], [isAdminAuthenticated], [logoutAdmin] *)
Definition authenticateAdmin (passcode : string) : M bool :=
  if String.eqb passcode ADMIN_PASSCODE then
    setItem ADMIN_SESSION_KEY (Text "true") >> ret true
  else ret false.

Definition isAdminAuthenticated : M bool :=
  let* v := getItem ADMIN_SESSION_KEY in
  ret match v with
      | Some (Text s) => String.eqb s "true"
      | _ => false
      end.

Definition logoutAdmin : M unit := removeItem ADMIN_SESSION_KEY.

(** *** jobService *)

(** [Array.isArray(data) ? data : (data.jobs || data.data || [])] *)
Definition apiJobs_of (data : ApiData) : list ApiJob.t :=
  match data with
  | DataArray l => l
  | DataObject (Some l) _ => l
  | DataObject None (Some l) => l
  | DataObject None None => []
  end.

(** [searchJobs(query, filters, forceAPI)], given how its [fetch] ends.
    A rejected [fetch], the [throw] on a response that is not [ok] and a
    rejected [response.json()] all land in the [catch]. *)
Definition searchJobs (query : string) (filters : JobFilters.t)
    (forceAPI : bool) (outcome : FetchOutcome) : M (list Job.t) :=
  if negb forceAPI then getFilteredJobs query filters
  else
    match outcome with
    | NetworkError => getFilteredJobs query filters
    | Response false _ => getFilteredJobs query filters
    | Response true None => getFilteredJobs query filters
    | Response true (Some data) =>
        syncJobsFromAPI (apiJobs_of data) >>
        getFilteredJobs query filters
    end.

(** *** AdminJobManager *)

(** The predicate of [filterJobs] for the lower-cased [searchTerm]. *)
Definition matchesTerm (searchTerm : string) (job : Job.t) : bool :=
  Str.includes (Str.toLowerCase (Job.title job)) searchTerm
  || Str.includes (Str.toLowerCase (Job.company job)) searchTerm
  || Str.includes (Str.toLowerCase (Job.location job)) searchTerm
  || Str.includes (Str.toLowerCase (Job.description job)) searchTerm
  || existsb (fun skill => Str.includes (Str.toLowerCase skill) searchTerm)
             (Job.skills job).

(** [filterJobs], as a function of the component's [jobs] and
    [searchQuery]; the result is what it passes to [setFilteredJobs]. *)
Definition filterJobs (jobs : list Job.t) (searchQuery : string)
    : list Job.t :=
  if Str.nonempty searchQuery then
    List.filter (matchesTerm (Str.toLowerCase searchQuery)) jobs
  else jobs.

End Service.

(** ** Notions used to state the properties *)

(** Provenance of a record. *)
Definition is_admin (job : Job.t) : bool := Source_eqb (Job.source job) admin.
Definition is_api (job : Job.t) : bool := Source_eqb (Job.source job) api.

(** The ids of a collection, in order. *)
Definition ids (l : list Job.t) : list string := List.map Job.id l.

(** Every entry of a list of requirements or skills is non-empty and has no
    blank at either end. *)
Definition clean_list (l : list string) : bool :=
  forallb (fun s => Str.nonempty s && Str.trimmed s) l.

(** [term] occurs in [text] when case is ignored. *)
Definition appears_in (term text : string) : Prop :=
  exists before after,
    Str.toLowerCase text = before +:+ Str.toLowerCase term +:+ after.

(** [searchTerm] occurs in the lower-cased title, company, description or
    one of the skills. *)
Definition mentions (searchTerm : string) (job : Job.t) : bool :=
  Str.includes (Str.toLowerCase (Job.title job)) searchTerm
  || Str.includes (Str.toLowerCase (Job.company job)) searchTerm
  || Str.includes (Str.toLowerCase (Job.description job)) searchTerm
  || existsb (fun skill => Str.includes (Str.toLowerCase skill) searchTerm)
             (Job.skills job).

(** [job] meets the query and every predicate that [filters] has. *)
Definition passes (query : string) (filters : JobFilters.t) (job : Job.t)
    : bool :=
  (if Str.nonempty query then
     Str.includes (Str.toLowerCase (searchableText job))
                  (Str.toLowerCase query)
   else true)
  && match JobFilters.location filters with
     | Some loc =>
         if Str.nonempty loc then
           Str.includes (Str.toLowerCase (Job.location job))
                        (Str.toLowerCase loc)
         else true
     | None => true
     end
  && match JobFilters.type filters with
     | Some ty =>
         if Str.nonempty ty then String.eqb (Job.type job) ty else true
     | None => true
     end
  && match JobFilters.experience filters with
     | Some ex =>
         if Str.nonempty ex then
           Str.includes (Str.toLowerCase (Job.experience job))
                        (Str.toLowerCase ex)
         else true
     | None => true
     end
  && match JobFilters.remote filters with
     | Some r => Bool.eqb (Job.remote job) r
     | None => true
     end
  && match JobFilters.skills filters with
     | Some ((_ :: _) as wanted) =>
         existsb (fun skill =>
           existsb (fun jobSkill =>
             Str.includes (Str.toLowerCase jobSkill)
                          (Str.toLowerCase skill)) (Job.skills job)) wanted
     | _ => true
     end.

(** Every field of [new] other than [updated_at] whose key [updates] does
    not have is as in [old]. *)
Definition retained (updates : Partial.t) (old new : Job.t) : Prop :=
  (Partial.id updates = None -> Job.id new = Job.id old)
  /\ (Partial.title updates = None -> Job.title new = Job.title old)
  /\ (Partial.company updates = None -> Job.company new = Job.company old)
  /\ (Partial.location updates = None -> Job.location new = Job.location old)
  /\ (Partial.type updates = None -> Job.type new = Job.type old)
  /\ (Partial.experience updates = None ->
         Job.experience new = Job.experience old)
  /\ (Partial.salary updates = None -> Job.salary new = Job.salary old)
  /\ (Partial.description updates = None ->
         Job.description new = Job.description old)
  /\ (Partial.requirements updates = None ->
         Job.requirements new = Job.requirements old)
  /\ (Partial.posted updates = None -> Job.posted new = Job.posted old)
  /\ (Partial.url updates = None -> Job.url new = Job.url old)
  /\ (Partial.logo updates = None -> Job.logo new = Job.logo old)
  /\ (Partial.remote updates = None -> Job.remote new = Job.remote old)
  /\ (Partial.skills updates = None -> Job.skills new = Job.skills old)
  /\ (Partial.application_link updates = None ->
         Job.application_link new = Job.application_link old)
  /\ (Partial.created_at updates = None ->
         Job.created_at new = Job.created_at old)
  /\ (Partial.source updates = None -> Job.source new = Job.source old).

(** Every key that [updates] has, other than [updated_at], is in [new] with
    the value that [updates] gives it. *)
Definition applied (updates : Partial.t) (new : Job.t) : Prop :=
  (forall v, Partial.id updates = Some v -> Job.id new = v)
  /\ (forall v, Partial.title updates = Some v -> Job.title new = v)
  /\ (forall v, Partial.company updates = Some v -> Job.company new = v)
  /\ (forall v, Partial.location updates = Some v -> Job.location new = v)
  /\ (forall v, Partial.type updates = Some v -> Job.type new = v)
  /\ (forall v, Partial.experience updates = Some v -> Job.experience new = v)
  /\ (forall v, Partial.salary updates = Some v -> Job.salary new = v)
  /\ (forall v, Partial.description updates = Some v -> Job.description new = v)
  /\ (forall v, Partial.requirements updates = Some v ->
         Job.requirements new = v)
  /\ (forall v, Partial.posted updates = Some v -> Job.posted new = v)
  /\ (forall v, Partial.url updates = Some v -> Job.url new = v)
  /\ (forall v, Partial.logo updates = Some v -> Job.logo new = v)
  /\ (forall v, Partial.remote updates = Some v -> Job.remote new = v)
  /\ (forall v, Partial.skills updates = Some v -> Job.skills new = v)
  /\ (forall v, Partial.application_link updates = Some v ->
         Job.application_link new = v)
  /\ (forall v, Partial.created_at updates = Some v -> Job.created_at new = v)
  /\ (forall v, Partial.source updates = Some v -> Job.source new = v).

(** The [fetch] did not deliver a parsed body: it was rejected, the
    response was an error, or its body did not parse. *)
Definition fetch_failed (outcome : FetchOutcome) : bool :=
  match outcome with
  | NetworkError => true
  | Response false _ => true
  | Response true None => true
  | Response true (Some _) => false
  end.

Section Callers.

Variable host : Host.

(** A caller that makes one [addJob] call after the other. *)
Fixpoint addJobs (l : list JobData.t) : M unit :=
  match l with
  | [] => ret tt
  | jobData :: rest =>
      addJob host jobData >> addJobs rest
  end.

(** The id that the [k]-th of a run of [addJob] calls started in [w]
    generates: each call reads the clock three times, first for the id,
    and draws once. *)
Definition idAt (w : World) (k : nat) : string :=
  "job_" +:+ Num.string_of_Z (clock host (clock_reads w + 3 * k)%nat) +:+
  "_" +:+ random_suffix host (random_draws w + k)%nat.

(** The stamp of an [updateJob] call made in [w]. *)
Definition stampAt (w : World) : string :=
  toISOString host (clock host (clock_reads w)).

(** The number of days that [formatDate] puts into buckets, for the
    readings [now] of the clock and [ts] of the timestamp. *)
Definition days_between (now ts : Z) : Z :=
  - ((- Z.abs (now - ts)) / 86400000).

(** The stamp [updated_at] of every record of [l] is that of one of the
    first [k] readings of the clock. *)
Definition stamped_before (k : nat) (l : list Job.t) : Prop :=
  Forall (fun job => exists n, (n < k)%nat
            /\ Job.updated_at job = toISOString host (clock host n)) l.

(** Every record in memory has been stamped at a reading of the clock
    made so far. *)
Definition stamped (w : World) : Prop :=
  stamped_before (clock_reads w) (jobs w).
End Callers.

(** ** A host to run the code on

    An instance of the host for evaluating the service on concrete inputs:
    dates in the one format that [toISOString] prints,
    [YYYY-MM-DDTHH:mm:ss.sssZ], on the proleptic Gregorian calendar. *)

Module SampleHost.

(** Days from 1970-01-01 to the civil date [y]-[m]-[d]. *)
Definition days_from_civil (y m d : Z) : Z :=
  let y' := if m <=? 2 then y - 1 else y in
  let era := y' / 400 in
  let yoe := y' - era * 400 in
  let doy := (153 * (if m >? 2 then m - 3 else m + 9) + 2) / 5 + d - 1 in
  let doe := yoe * 365 + yoe / 4 - yoe / 100 + doy in
  era * 146097 + doe - 719468.

(** The civil date of the day [z] days after 1970-01-01. *)
Definition civil_from_days (z : Z) : Z * Z * Z :=
  let z := z + 719468 in
  let era := z / 146097 in
  let doe := z - era * 146097 in
  let yoe := (doe - doe / 1460 + doe / 36524 - doe / 146096) / 365 in
  let doy := doe - (365 * yoe + yoe / 4 - yoe / 100) in
  let mp := (5 * doy + 2) / 153 in
  let d := doy - (153 * mp + 2) / 5 + 1 in
  let m := if mp <? 10 then mp + 3 else mp - 9 in
  let y := yoe + era * 400 in
  (if m <=? 2 then y + 1 else y, m, d).

Definition digit (n : Z) : ascii := ascii_of_N (48 + Z.to_N (n mod 10)).

Definition pad2 (n : Z) (rest : string) : string :=
  String (digit (n / 10)) (String (digit n) rest).

Definition pad3 (n : Z) (rest : string) : string :=
  String (digit (n / 100)) (pad2 n rest).

Definition pad4 (n : Z) (rest : string) : string :=
  String (digit (n / 1000)) (pad3 n rest).

Definition toISOString (t : Z) : string :=
  let '(y, m, d) := civil_from_days (t / 86400000) in
  let ms := t mod 86400000 in
  pad4 y (String "-" (pad2 m (String "-" (pad2 d (String "T"
    (pad2 (ms / 3600000) (String ":" (pad2 (ms / 60000 mod 60) (String ":"
      (pad2 (ms / 1000 mod 60) (String "." (pad3 (ms mod 1000) "Z")))))))))))).

Definition digit_val (c : ascii) : option Z :=
  let n := N_of_ascii c in
  if ((48 <=? n) && (n <=? 57))%N then Some (Z.of_N n - 48) else None.

(** The value of a text made of decimal digits only. *)
Fixpoint digits_val (acc : Z) (s : string) : option Z :=
  match s with
  | EmptyString => Some acc
  | String c s' =>
      match digit_val c with
      | Some v => digits_val (acc * 10 + v) s'
      | None => None
      end
  end.

Definition field (s : string) (start len : nat) : option Z :=
  digits_val 0 (substring start len s).

Definition Date_parse (s : string) : number :=
  if negb (Nat.eqb (String.length s) 24) then NaN
  else if negb (String.eqb (substring 4 1 s) "-"
                && String.eqb (substring 7 1 s) "-"
                && String.eqb (substring 10 1 s) "T"
                && String.eqb (substring 13 1 s) ":"
                && String.eqb (substring 16 1 s) ":"
                && String.eqb (substring 19 1 s) "."
                && String.eqb (substring 23 1 s) "Z") then NaN
  else
    match field s 0 4, field s 5 2, field s 8 2,
          field s 11 2, field s 14 2, field s 17 2, field s 20 3 with
    | Some y, Some m, Some d, Some hh, Some mm, Some ss, Some ms =>
        if (1 <=? m) && (m <=? 12) && (1 <=? d) && (d <=? 31)
           && (hh <? 24) && (mm <? 60) && (ss <? 60)
        then Int (days_from_civil y m d * 86400000
                  + hh * 3600000 + mm * 60000 + ss * 1000 + ms)
        else NaN
    | _, _, _, _, _, _, _ => NaN
    end.

(** A clock that advances by one millisecond at each read, from
    2023-11-14T22:13:20.000Z. *)
Definition clock (n : nat) : Z := 1700000000000 + Z.of_nat n.

(** A clock that stands still: every read falls in the same millisecond. *)
Definition still_clock (n : nat) : Z := 1700000000000.

(** Draws that all differ, and draws that are all the same. *)
Definition random_suffix (n : nat) : string :=
  "k3j9x2m" +:+ Num.string_of_Z (Z.of_nat n).

Definition same_suffix (n : nat) : string := "k3j9x2m1q".

(** The host with the advancing clock and differing draws, and the one
    where two calls fall in the same millisecond with the same draw. *)
Definition host : Host := mkHost Date_parse toISOString clock random_suffix.

Definition still_host : Host :=
  mkHost Date_parse toISOString still_clock same_suffix.

(** A clock that was set back by a day: it reads
    2023-11-13T22:13:20.000Z. *)
Definition early_clock (n : nat) : Z := 1699913600000.

Definition early_host : Host :=
  mkHost Date_parse toISOString early_clock random_suffix.

(** The state of a fresh page: no jobs, nothing stored. *)
Definition fresh : World := mkWorld [] ∅ 0 0.

End SampleHost.

(** ** Sample data *)

Module Sample.

Definition reactJob : JobData.t := {|
  JobData.title := "Frontend Engineer";
  JobData.company := "Acme";
  JobData.location := "Berlin";
  JobData.type := "full-time";
  JobData.experience := "3 years";
  JobData.salary := "Competitive";
  JobData.description := "Build the web client";
  JobData.requirements := ["TypeScript"];
  JobData.posted := "Just now";
  JobData.url := "#";
  JobData.logo := "";
  JobData.remote := true;
  JobData.skills := ["React"; "CSS"];
  JobData.application_link := None
|}.

(** A stored record created through the admin interface. *)
Definition stored : Job.t := {|
  Job.id := "job_1";
  Job.title := "Frontend Engineer";
  Job.company := "Acme";
  Job.location := "Berlin";
  Job.type := "full-time";
  Job.experience := "3 years";
  Job.salary := "Competitive";
  Job.description := "Build the web client";
  Job.requirements := ["TypeScript"];
  Job.posted := "Just now";
  Job.url := "#";
  Job.logo := "";
  Job.remote := true;
  Job.skills := ["React"; "CSS"];
  Job.application_link := None;
  Job.created_at := "2023-11-14T22:13:20.000Z";
  Job.updated_at := "2023-11-14T22:13:20.000Z";
  Job.source := admin
|}.

(** A second stored record, from the remote provider. *)
Definition remote_one : Job.t := {|
  Job.id := "42";
  Job.title := "Backend Engineer";
  Job.company := "Globex";
  Job.location := "Pune";
  Job.type := "contract";
  Job.experience := "Not specified";
  Job.salary := "Competitive";
  Job.description := "Keep the services running";
  Job.requirements := [];
  Job.posted := "Recently";
  Job.url := "#";
  Job.logo := "";
  Job.remote := false;
  Job.skills := ["Go"];
  Job.application_link := None;
  Job.created_at := "2023-11-10T08:00:00.000Z";
  Job.updated_at := "2023-11-14T22:13:20.000Z";
  Job.source := api
|}.

(** A catalog holding the two records, persisted. *)
Definition catalog : World :=
  mkWorld [stored; remote_one]
          {[ STORAGE_KEY := Json [stored; remote_one] ]} 0 0.

(** A payload whose skills have an empty entry and one with blanks around
    it. *)
Definition untidy : ApiJob.t := {|
  ApiJob.id := Some "7";
  ApiJob.title := Some "Designer";
  ApiJob.company := None;
  ApiJob.location := None;
  ApiJob.job_type := None;
  ApiJob.type := None;
  ApiJob.experience := None;
  ApiJob.experience_level := None;
  ApiJob.salary := None;
  ApiJob.salary_range := None;
  ApiJob.description := None;
  ApiJob.requirements := None;
  ApiJob.skills := Some [""; " Figma "];
  ApiJob.created_at := None;
  ApiJob.application_link := None;
  ApiJob.url := None;
  ApiJob.logo := None;
  ApiJob.company_logo := None;
  ApiJob.remote := None;
  ApiJob.is_remote := None
|}.

(** A payload whose creation timestamp is no date. *)
Definition undated : ApiJob.t := {|
  ApiJob.id := Some "8";
  ApiJob.title := Some "Analyst";
  ApiJob.company := None;
  ApiJob.location := None;
  ApiJob.job_type := None;
  ApiJob.type := None;
  ApiJob.experience := None;
  ApiJob.experience_level := None;
  ApiJob.salary := None;
  ApiJob.salary_range := None;
  ApiJob.description := None;
  ApiJob.requirements := None;
  ApiJob.skills := None;
  ApiJob.created_at := Some "not a date";
  ApiJob.application_link := None;
  ApiJob.url := None;
  ApiJob.logo := None;
  ApiJob.company_logo := None;
  ApiJob.remote := None;
  ApiJob.is_remote := None
|}.

(** [{ remote: true }] *)
Definition remoteOnly : JobFilters.t :=
  JobFilters.mk None None None (Some true) None.

(** [{ source: 'api' }] *)
Definition toApi : Partial.t :=
  Partial.mk None None None None None None None None None None None None None
             None None None None (Some api).

(** [{ id: "42" }] *)
Definition reid : Partial.t :=
  Partial.mk (Some "42") None None None None None None None None None None
             None None None None None None None.

(** [{ title: "X" }] *)
Definition retitle : Partial.t :=
  Partial.mk None (Some "X") None None None None None None None None None None
             None None None None None None.

End Sample.

(** ** The rest of the service and its callers *)

(** The object that [getJobStats] returns. *)
Module Stats.
Record t : Type := mk {
  total : nat;
  apiJobs : nat;
  adminJobs : nat;
  remoteJobs : nat;
  companies : nat;
  locations : nat
}.
End Stats.

(** [new Set(l).size] *)
Definition Set_size (l : list string) : nat :=
  size (list_to_set l : gset string).

(** [ids.includes(id)] *)
Definition includes_id (ids : list string) (id : string) : bool :=
  existsb (String.eqb id) ids.

(** The collection that is persisted is the one in memory. *)
Definition in_sync (w : World) : Prop :=
  localStorage w !! STORAGE_KEY = Some (Json (jobs w)).

(** The number of records of [l] whose id is [id]. *)
Definition count_id (id : string) (l : list Job.t) : nat :=
  length (List.filter (fun job => String.eqb (Job.id job) id) l).


Section Rest.

Variable host : Host.

(** [JSON.parse] on a stored text that is not the text of a job array:
    [None] when it throws. *)
Variable JSON_parse : string -> option (list Job.t).

(** [loadFromStorage]: [getItem] gives [null] for a missing key, and the
    empty text is falsy; a text that does not parse lands in the [catch]. *)
Definition loadFromStorage : M unit :=
  let* stored := getItem STORAGE_KEY in
  match stored with
  | None => ret tt
  | Some (Json js) => set_jobs js
  | Some (Text s) =>
      if Str.nonempty s then
        match JSON_parse s with
        | Some js => set_jobs js
        | None => set_jobs []
        end
      else ret tt
  end.

(** The state of a new instance over the storage of [w]: the field
    initializer [jobs = []], then the constructor's [loadFromStorage]. *)
Definition newInstance (w : World) : World :=
  (loadFromStorage
     (mkWorld [] (localStorage w) (clock_reads w) (random_draws w))).2.

(** [deleteJob] *)
Definition deleteJob (id : string) : M bool :=
  let* js := get_jobs in
  let initialLength := length js in
  set_jobs (List.filter (fun job => negb (String.eqb (Job.id job) id)) js) >>
  let* js' := get_jobs in
  if (length js' <? initialLength)%nat then saveToStorage >> ret true
  else ret false.

(** [deleteJobs] *)
Definition deleteJobs (ids : list string) : M nat :=
  let* js := get_jobs in
  let initialLength := length js in
  set_jobs (List.filter (fun job => negb (includes_id ids (Job.id job))) js) >>
  let* js' := get_jobs in
  let deletedCount := (initialLength - length js')%nat in
  if (0 <? deletedCount)%nat then saveToStorage >> ret deletedCount
  else ret deletedCount.

(** [deleteAllJobs] *)
Definition deleteAllJobs : M nat :=
  let* js := get_jobs in
  let deletedCount := length js in
  set_jobs [] >>
  saveToStorage >>
  ret deletedCount.

(** [getJobStats] *)
Definition getJobStats : M Stats.t :=
  let* js := get_jobs in
  ret {|
    Stats.total := length js;
    Stats.apiJobs :=
      length (List.filter (fun job => Source_eqb (Job.source job) api) js);
    Stats.adminJobs :=
      length (List.filter (fun job => Source_eqb (Job.source job) admin) js);
    Stats.remoteJobs := length (List.filter Job.remote js);
    Stats.companies := Set_size (List.map Job.company js);
    Stats.locations := Set_size (List.map Job.location js)
  |}.

(** *** jobService *)

(** [getRecommendedJobs(skills, experience)]; the second argument is not
    used. *)
Definition getRecommendedJobs (skills : list string)
    (experience : option string) : M (list Job.t) :=
  getFilteredJobs ""
    (JobFilters.mk None None None None (Some skills)).

(** *** AdminJobManager *)


End Rest.

(** The cache of [jobService]: a [Map] from keys to the data with the
    reading of the clock at which it was stored. *)
Section Cache.

Context {A : Type}.

Definition CACHE_DURATION : Z := 5 * 60 * 1000.

(** [getCachedData(key)] when [Date.now()] reads [now]; [None] for
    [null]. *)
Definition getCachedData (cache : gmap string (A * Z)) (now : Z)
    (key : string) : option A :=
  match cache !! key with
  | Some (data, timestamp) =>
      if now - timestamp <? CACHE_DURATION then Some data else None
  | None => None
  end.

(** [setCachedData(key, data)] when [Date.now()] reads [now]. *)
Definition setCachedData (cache : gmap string (A * Z)) (now : Z)
    (key : string) (data : A) : gmap string (A * Z) :=
  <[key := (data, now)]> cache.

End Cache.

(** Two states agree on what the instance holds in memory and on how
    far the clock and the random source have been read; [localStorage] may
    differ. *)
Definition same_memory (w1 w2 : World) : Prop :=
  jobs w1 = jobs w2
  /\ clock_reads w1 = clock_reads w2
  /\ random_draws w1 = random_draws w2.

(** ** Sequences of calls *)

(** A call that a user of the store can make. *)
Inductive Call : Type :=
  | CallAdd (jobData : JobData.t)
  | CallUpdate (id : string) (updates : Partial.t)
  | CallDelete (id : string)
  | CallDeleteMany (ids : list string)
  | CallDeleteAll
  | CallSync (apiJobs : list ApiJob.t)
  | CallSearch (query : string) (filters : JobFilters.t) (forceAPI : bool)
               (outcome : FetchOutcome)
  | CallAuthenticate (passcode : string)
  | CallLogout.

(** The calls that write the session flag. *)
Definition is_session_call (c : Call) : bool :=
  match c with
  | CallAuthenticate _ | CallLogout => true
  | _ => false
  end.

Section Calls.

Variable host : Host.

(** The effect of one call on the state. *)
Definition call (c : Call) : M unit :=
  match c with
  | CallAdd jobData => addJob host jobData >> ret tt
  | CallUpdate id updates => updateJob host id updates >> ret tt
  | CallDelete id => deleteJob id >> ret tt
  | CallDeleteMany ids => deleteJobs ids >> ret tt
  | CallDeleteAll => deleteAllJobs >> ret tt
  | CallSync apiJobs => syncJobsFromAPI host apiJobs
  | CallSearch query filters forceAPI outcome =>
      searchJobs host query filters forceAPI outcome >> ret tt
  | CallAuthenticate passcode => authenticateAdmin passcode >> ret tt
  | CallLogout => logoutAdmin
  end.

(** One call after the other. *)
Fixpoint calls (l : list Call) : M unit :=
  match l with
  | [] => ret tt
  | c :: rest => call c >> calls rest
  end.

End Calls.

(** ** The store on a storage that can refuse a write *)

(** [localStorage.setItem] throws when the storage is full or disabled, and
    then stores nothing.  The definitions above are the service on a
    storage that accepts every write; those of this module are given, for
    one call of a method, whether the storage accepts the write that the
    call makes: no method reaches [setItem] more than once. *)
Module Fallible.

Section Fallible.

Variable host : Host.
Variable accepted : bool.

(** [localStorage.setItem(k, v)]: [None] when it throws. *)
Definition setItem_or_throw (k : string) (v : Stored) : M (option unit) :=
  if accepted then setItem k v >> ret (Some tt) else ret None.

(** [saveToStorage]: the handler of its [try] only logs. *)
Definition saveToStorage : M unit :=
  let* js := get_jobs in
  let* written := setItem_or_throw STORAGE_KEY (Json js) in
  match written with
  | Some _ => ret tt
  | None => ret tt
  end.

(** [syncJobsFromAPI] *)
Definition syncJobsFromAPI (apiJobs : list ApiJob.t) : M unit :=
  let* normalizedJobs := normalizeAPIJobs host apiJobs in
  let* js := get_jobs in
  set_jobs (List.filter (fun job => Source_eqb (Job.source job) admin) js
            ++ normalizedJobs) >>
  saveToStorage.

(** [addJob] *)
Definition addJob (jobData : JobData.t) : M Job.t :=
  let* id := generateId host in
  let* created_at := now_iso host in
  let* updated_at := now_iso host in
  let newJob := {|
    Job.id := id;
    Job.title := JobData.title jobData;
    Job.company := JobData.company jobData;
    Job.location := JobData.location jobData;
    Job.type := JobData.type jobData;
    Job.experience := JobData.experience jobData;
    Job.salary := JobData.salary jobData;
    Job.description := JobData.description jobData;
    Job.requirements := JobData.requirements jobData;
    Job.posted := JobData.posted jobData;
    Job.url := JobData.url jobData;
    Job.logo := JobData.logo jobData;
    Job.remote := JobData.remote jobData;
    Job.skills := JobData.skills jobData;
    Job.application_link := JobData.application_link jobData;
    Job.created_at := created_at;
    Job.updated_at := updated_at;
    Job.source := admin
  |} in
  let* js := get_jobs in
  set_jobs (newJob :: js) >>
  saveToStorage >>
  ret newJob.

(** [updateJob] *)
Definition updateJob (id : string) (updates : Partial.t)
    : M (option Job.t) :=
  let* js := get_jobs in
  match findIndex id js with
  | None => ret None
  | Some index =>
      match js !! index with
      | None => ret None
      | Some job =>
          let* stamp := now_iso host in
          let updated := merge job updates stamp in
          set_jobs (<[index := updated]> js) >>
          saveToStorage >>
          ret (Some updated)
      end
  end.

(** [deleteJob] *)
Definition deleteJob (id : string) : M bool :=
  let* js := get_jobs in
  let initialLength := length js in
  set_jobs (List.filter (fun job => negb (String.eqb (Job.id job) id)) js) >>
  let* js' := get_jobs in
  if (length js' <? initialLength)%nat then saveToStorage >> ret true
  else ret false.

(** [deleteJobs] *)
Definition deleteJobs (ids : list string) : M nat :=
  let* js := get_jobs in
  let initialLength := length js in
  set_jobs (List.filter (fun job => negb (includes_id ids (Job.id job))) js) >>
  let* js' := get_jobs in
  let deletedCount := (initialLength - length js')%nat in
  if (0 <? deletedCount)%nat then saveToStorage >> ret deletedCount
  else ret deletedCount.

(** [deleteAllJobs] *)
Definition deleteAllJobs : M nat :=
  let* js := get_jobs in
  let deletedCount := length js in
  set_jobs [] >>
  saveToStorage >>
  ret deletedCount.

(** [authenticateAdmin]: its [setItem] is in no [try], so that the
    exception reaches the caller, [None] here. *)
Definition authenticateAdmin (passcode : string) : M (option bool) :=
  if String.eqb passcode ADMIN_PASSCODE then
    let* written := setItem_or_throw ADMIN_SESSION_KEY (Text "true") in
    match written with
    | Some _ => ret (Some true)
    | None => ret None
    end
  else ret (Some false).

(** [searchJobs(query, filters, forceAPI)], given how its [fetch] ends. *)
Definition searchJobs (query : string) (filters : JobFilters.t)
    (forceAPI : bool) (outcome : FetchOutcome) : M (list Job.t) :=
  if negb forceAPI then getFilteredJobs query filters
  else
    match outcome with
    | NetworkError => getFilteredJobs query filters
    | Response false _ => getFilteredJobs query filters
    | Response true None => getFilteredJobs query filters
    | Response true (Some data) =>
        syncJobsFromAPI (apiJobs_of data) >>
        getFilteredJobs query filters
    end.

(** The effect of one call on the state.  [removeItem] does not throw. *)
Definition call (c : Call) : M unit :=
  match c with
  | CallAdd jobData => addJob jobData >> ret tt
  | CallUpdate id updates => updateJob id updates >> ret tt
  | CallDelete id => deleteJob id >> ret tt
  | CallDeleteMany ids => deleteJobs ids >> ret tt
  | CallDeleteAll => deleteAllJobs >> ret tt
  | CallSync apiJobs => syncJobsFromAPI apiJobs
  | CallSearch query filters forceAPI outcome =>
      searchJobs query filters forceAPI outcome >> ret tt
  | CallAuthenticate passcode => authenticateAdmin passcode >> ret tt
  | CallLogout => logoutAdmin
  end.

End Fallible.

(** One call after the other, each with whether its write is accepted. *)
Fixpoint calls (host : Host) (l : list (Call * bool)) : M unit :=
  match l with
  | [] => ret tt
  | (c, accepted) :: rest => call host accepted c >> calls host rest
  end.

End Fallible.

(** The state [v] with what [w] has in [localStorage]. *)
Definition with_storage_of (w v : World) : World :=
  mkWorld (jobs v) (localStorage w) (clock_reads v) (random_draws v).

(** ** The list fields of the admin form *)

Module Form.

(** [s.split(sep)] for a separator of one character. *)
Fixpoint split (sep : ascii) (s : string) : list string :=
  match s with
  | EmptyString => [EmptyString]
  | String c s' =>
      if Ascii.eqb c sep then EmptyString :: split sep s'
      else
        match split sep s' with
        | piece :: pieces => String c piece :: pieces
        | [] => [String c EmptyString]
        end
  end.

(** [s.trimStart()], [s.trimEnd()] and [s.trim()] on ASCII blanks. *)
Fixpoint trimStart (s : string) : string :=
  match s with
  | EmptyString => EmptyString
  | String c s' => if Str.is_space c then trimStart s' else s
  end.

Fixpoint trimEnd (s : string) : string :=
  match s with
  | EmptyString => EmptyString
  | String c s' =>
      match trimEnd s' with
      | EmptyString => if Str.is_space c then EmptyString
                       else String c EmptyString
      | rest => String c rest
      end
  end.

Definition trim (s : string) : string := trimEnd (trimStart s).

(** [text.split(',').map(s => s.trim()).filter(s => s)], what
    [handleCreateJob] and [handleEditJob] make of the requirements and
    skills fields of the form. *)
Definition parseList (text : string) : list string :=
  List.filter Str.nonempty (List.map trim (split "," text)).

(** [list.join(', ')], what [openEditModal] puts into the form. *)
Definition showList (l : list string) : string := Str.join ", " l.

(** An entry that the form can show and read back: not empty, no blank
    at either end, no comma. *)
Definition plain (s : string) : bool :=
  Str.nonempty s && Str.trimmed s && Str.lacks "," s.

End Form.

(** ** The selection of the admin job manager *)

Module Selection.

(** [toggleJobSelection]: the set that it passes to [setSelectedJobs]. *)
Definition toggleJobSelection (selectedJobs : gset string) (jobId : string)
    : gset string :=
  if decide (jobId ∈ selectedJobs) then selectedJobs ∖ {[jobId]}
  else selectedJobs ∪ {[jobId]}.

(** [toggleSelectAll]: the set that it passes to [setSelectedJobs]. *)
Definition toggleSelectAll (selectedJobs : gset string)
    (filteredJobs : list Job.t) : gset string :=
  if Nat.eqb (size selectedJobs) (length filteredJobs) then ∅
  else list_to_set (List.map Job.id filteredJobs).

End Selection.

(** ** Deleting from the admin job manager *)

(** [deleteTarget: 'single' | 'multiple' | 'all'] *)
Inductive DeleteTarget : Type :=
  | single
  | multiple
  | all.

(** What [confirmDelete] does to the store, and the [deletedCount] that
    it reports, given the component's [deleteTarget], [editingJob] and
    [selectedJobs]; [Array.from(selectedJobs)] lists the selected ids. *)
Definition confirmDelete (deleteTarget : DeleteTarget)
    (editingJob : option Job.t) (selectedJobs : gset string) : M nat :=
  match deleteTarget with
  | single =>
      match editingJob with
      | Some job =>
          let* success := deleteJob (Job.id job) in
          ret (if success then 1%nat else 0%nat)
      | None => ret 0%nat
      end
  | multiple => deleteJobs (elements selectedJobs)
  | all => deleteAllJobs
  end.

(** ** Market analytics *)

Module Analytics.

(** [count.set(key, (count.get(key) || 0) + 1)] on a [Map], whose entries
    stay in the order in which their keys were first set. *)
Fixpoint bump (key : string) (count : list (string * nat))
    : list (string * nat) :=
  match count with
  | [] => [(key, 1%nat)]
  | (k, n) :: rest =>
      if String.eqb k key then (k, S n) :: rest
      else (k, n) :: bump key rest
  end.

(** The map after the keys have been counted one after the other. *)
Definition countKeys (keys : list string) : list (string * nat) :=
  fold_left (fun count key => bump key count) keys [].

(** [entries.sort((a, b) => b[1] - a[1])]: by falling count, entries of
    equal count in their order ([Array.prototype.sort] is stable). *)
Fixpoint insert (e : string * nat) (sorted : list (string * nat))
    : list (string * nat) :=
  match sorted with
  | [] => [e]
  | x :: rest =>
      if (snd e <? snd x)%nat then x :: insert e rest else e :: x :: rest
  end.

Definition sortByCount (entries : list (string * nat))
    : list (string * nat) :=
  fold_right insert [] entries.

(** [Array.from(count.entries()).sort(...).slice(0, 10).map(([key]) => key)] *)
Definition topTen (count : list (string * nat)) : list string :=
  List.map fst (firstn 10 (sortByCount count)).

(** [extractTrendingSkills] *)
Definition extractTrendingSkills (jobs : list Job.t) : list string :=
  topTen (countKeys (concat (List.map Job.skills jobs))).

(** [extractTopCompanies] *)
Definition extractTopCompanies (jobs : list Job.t) : list string :=
  topTen (countKeys (List.map Job.company jobs)).

(** The object that [getJobMarketAnalytics] returns. *)
Record t : Type := mk {
  totalJobs : nat;
  trendingSkills : list string;
  topCompanies : list string;
  averageSalary : string;
  growthRate : string;
  remoteJobs : nat;
  companies : nat;
  locations : nat
}.

(** [getJobMarketAnalytics]: nothing in its [try] throws. *)
Definition getJobMarketAnalytics : M t :=
  let* jobs := getAllJobs in
  let* stats := getJobStats in
  ret {|
    totalJobs := Stats.total stats;
    trendingSkills := extractTrendingSkills jobs;
    topCompanies := extractTopCompanies jobs;
    averageSalary := "₹12-25 LPA";
    growthRate := "15%";
    remoteJobs := Stats.remoteJobs stats;
    companies := Stats.companies stats;
    locations := Stats.locations stats
  |}.

(** The order of the sorted entries: the count does not rise. *)
Definition falling (a b : string * nat) : Prop := (snd b <= snd a)%nat.

(** [count.get(key) || 0] *)
Fixpoint get (key : string) (count : list (string * nat)) : nat :=
  match count with
  | [] => 0%nat
  | (k, n) :: rest => if String.eqb k key then n else get key rest
  end.

(** How often [key] occurs in [keys]. *)
Definition occurrences (key : string) (keys : list string) : nat :=
  length (List.filter (String.eqb key) keys).

(** [top] ranks the keys of [keys] by how often they occur: it holds at
    most ten keys, each once, all taken from [keys], in the order of
    falling number of occurrences; no key that is left out occurs more
    often than one that is in; and no key is left out when there are at
    most ten different ones. *)
Definition ranks (keys top : list string) : Prop :=
  NoDup top
  /\ (length top <= 10)%nat
  /\ (forall key, In key top -> In key keys)
  /\ (forall i j a b,
        (i < j)%nat -> top !! i = Some a -> top !! j = Some b ->
        (occurrences b keys <= occurrences a keys)%nat)
  /\ (forall key other,
        In key keys -> ~ In key top -> In other top ->
        (occurrences key keys <= occurrences other keys)%nat)
  /\ ((length (remove_dups keys) <= 10)%nat ->
      forall key, In key keys -> In key top).

End Analytics.

(** ** Facts on strings *)

Module StrFacts.
Import Str.

Lemma append_nil_l (s : string) : "" +:+ s = s.
Proof. reflexivity. Qed.

Lemma append_cons (c : ascii) (s t : string) :
  String c s +:+ t = String c (s +:+ t).
Proof. reflexivity. Qed.

Ltac sapp := rewrite ?append_cons, ?append_nil_l in *.

Lemma append_nil_r (s : string) : s +:+ "" = s.
Proof. induction s as [|c s IH]; sapp; [reflexivity | now rewrite IH]. Qed.

Lemma append_assoc (a b c : string) : (a +:+ b) +:+ c = a +:+ (b +:+ c).
Proof. induction a as [|x a IH]; sapp; [reflexivity | now rewrite IH]. Qed.

Lemma prefix_spec (n h : string) :
  String.prefix n h = true <-> exists q, h = n +:+ q.
Proof.
  revert h. induction n as [|c n IH]; intros h.
  - split; [intros _; now exists h | intros _; now destruct h].
  - destruct h as [|d h]; simpl.
    + split; [discriminate | intros [q Hq]; sapp; discriminate].
    + destruct (ascii_dec c d) as [->|Hne].
      * rewrite IH. split; intros [q Hq]; exists q; sapp;
          [now rewrite Hq | now inversion Hq].
      * split; [discriminate | intros [q Hq]; sapp; inversion Hq; congruence].
Qed.

Lemma includes_nil (n : string) : includes "" n = String.prefix n "".
Proof. simpl. now rewrite orb_false_r. Qed.

Lemma includes_cons (c : ascii) (h n : string) :
  includes (String c h) n = String.prefix n (String c h) || includes h n.
Proof. reflexivity. Qed.

Lemma includes_spec (h n : string) :
  includes h n = true <-> exists p q, h = p +:+ n +:+ q.
Proof.
  induction h as [|c h IH].
  - rewrite includes_nil, prefix_spec. split.
    + intros [q Hq]. now exists "", q.
    + intros [p [q Hq]]. destruct p; sapp; [now exists q | discriminate].
  - rewrite includes_cons, orb_true_iff, prefix_spec, IH. split.
    + intros [[q Hq] | [p [q Hq]]].
      * now exists "", q.
      * exists (String c p), q. sapp. now rewrite Hq.
    + intros [p [q Hq]]. destruct p as [|d p]; sapp.
      * left. now exists q.
      * right. exists p, q. now inversion Hq.
Qed.

Lemma toLowerCase_app (a b : string) :
  toLowerCase (a +:+ b) = toLowerCase a +:+ toLowerCase b.
Proof.
  induction a as [|x a IH]; sapp; simpl; [reflexivity | now rewrite IH].
Qed.

Lemma lower_ascii_blank (c : ascii) :
  Ascii.eqb (lower_ascii c) " " = Ascii.eqb c " ".
Proof. destruct c as [[] [] [] [] [] [] [] []]; reflexivity. Qed.

Lemma no_blank_toLowerCase (s : string) :
  no_blank (toLowerCase s) = no_blank s.
Proof.
  induction s as [|c s IH]; simpl; [reflexivity|].
  now rewrite lower_ascii_blank, IH.
Qed.

Lemma nonempty_toLowerCase (s : string) :
  nonempty (toLowerCase s) = nonempty s.
Proof. now destruct s. Qed.

(** A text without blank that starts a text [a] followed by a blank lies
    within [a]. *)
Lemma starts_before_blank (n a b q : string) :
  no_blank n = true -> n +:+ q = a +:+ " " +:+ b ->
  exists q', a = n +:+ q'.
Proof.
  revert a. induction n as [|c n IH]; intros a Hn Heq; simpl in Hn; sapp.
  - now exists a.
  - apply andb_true_iff in Hn as [Hc Hn].
    destruct a as [|d a]; sapp; inversion Heq; subst.
    + discriminate.
    + destruct (IH a Hn H1) as [q' ->]. now exists q'.
Qed.

Lemma includes_around_blank (a b n : string) :
  nonempty n = true -> no_blank n = true ->
  includes (a +:+ " " +:+ b) n = includes a n || includes b n.
Proof.
  intros Hne Hnb. apply eq_true_iff_eq.
  rewrite orb_true_iff, !includes_spec. split.
  - intros [p [q Heq]]. revert p Heq.
    induction a as [|x a IH]; intros p Heq; sapp.
    + destruct p as [|c p]; sapp.
      * destruct n as [|c n]; [discriminate|].
        simpl in Hnb. sapp. inversion Heq; subst. discriminate.
      * right. exists p, q. now inversion Heq.
    + destruct p as [|c p]; sapp.
      * left. symmetry in Heq.
        destruct (starts_before_blank n (String x a) b q Hnb Heq) as [q' Hq'].
        now exists "", q'.
      * inversion Heq; subst.
        destruct (IH p H1) as [[p' [q' ->]] | Hb]; [left | now right].
        now exists (String c p'), q'.
  - intros [[p [q ->]] | [p [q ->]]].
    + exists p, (q +:+ " " +:+ b). now rewrite !append_assoc.
    + exists (a +:+ " " +:+ p), q. now rewrite !append_assoc.
Qed.

Lemma includes_join (l : list string) (n : string) :
  nonempty n = true -> no_blank n = true ->
  includes (join " " l) n = existsb (fun s => includes s n) l.
Proof.
  intros Hne Hnb. induction l as [|s l IH]; simpl.
  - destruct n; [discriminate | reflexivity].
  - destruct l as [|s' l].
    + simpl. now rewrite orb_false_r.
    + change (join " " (s :: s' :: l)) with (s +:+ " " +:+ join " " (s' :: l)).
      now rewrite includes_around_blank, IH.
Qed.

Lemma toLowerCase_join (l : list string) :
  toLowerCase (join " " l) = join " " (List.map toLowerCase l).
Proof.
  induction l as [|s l IH]; simpl; [reflexivity|].
  destruct l as [|s' l]; [reflexivity|].
  change (join " " (s :: s' :: l)) with (s +:+ " " +:+ join " " (s' :: l)).
  now rewrite !toLowerCase_app, IH.
Qed.

End StrFacts.

(** ** Facts on the service *)

Section Sync.

Variable host : Host.

(** What normalization does not touch, and the fields of its result that
    do not depend on the clock. *)
Lemma normalizeAPIJob_frame (job : ApiJob.t) (index : nat) (w : World) :
  let r := normalizeAPIJob host job index w in
  jobs r.2 = jobs w
  /\ localStorage r.2 = localStorage w
  /\ random_draws r.2 = random_draws w
  /\ Job.source r.1 = api
  /\ Job.requirements r.1 =
     or_list (ApiJob.requirements job) (ApiJob.skills job)
  /\ Job.skills r.1 = or_list (ApiJob.skills job) (ApiJob.requirements job).
Proof.
  unfold normalizeAPIJob, formatDate, now_iso, Date_now, bind, ret.
  destruct (Str.truthy (ApiJob.id job)), (Str.truthy (ApiJob.created_at job));
    repeat split.
Qed.

Lemma normalizeFrom_cons (job : ApiJob.t) (rest : list ApiJob.t)
    (index : nat) (w : World) :
  normalizeFrom host index (job :: rest) w =
  let r := normalizeAPIJob host job index w in
  let rs := normalizeFrom host (S index) rest r.2 in
  (r.1 :: rs.1, rs.2).
Proof.
  simpl. unfold bind, ret.
  destruct (normalizeAPIJob host job index w) as [j w1]. simpl.
  now destruct (normalizeFrom host (S index) rest w1).
Qed.

Lemma normalizeFrom_frame (apiJobs : list ApiJob.t) (index : nat) (w : World) :
  let r := normalizeFrom host index apiJobs w in
  jobs r.2 = jobs w
  /\ localStorage r.2 = localStorage w
  /\ random_draws r.2 = random_draws w
  /\ length r.1 = length apiJobs
  /\ Forall (fun j => Job.source j = api) r.1
  /\ List.map Job.requirements r.1 =
     List.map (fun p => or_list (ApiJob.requirements p) (ApiJob.skills p))
              apiJobs
  /\ List.map Job.skills r.1 =
     List.map (fun p => or_list (ApiJob.skills p) (ApiJob.requirements p))
              apiJobs.
Proof.
  revert index w. induction apiJobs as [|job rest IH]; intros index w.
  - simpl. repeat split. constructor.
  - rewrite normalizeFrom_cons. cbv zeta.
    destruct (normalizeAPIJob_frame job index w)
      as (Hj & Hs & Hd & Hsrc & Hreq & Hsk).
    specialize (IH (S index) (normalizeAPIJob host job index w).2).
    cbv zeta in IH. destruct IH as (Ij & Is & Id & Ilen & Isrc & Ireq & Isk).
    simpl. rewrite Ij, Is, Id, Ilen, Ireq, Isk, Hreq, Hsk.
    repeat split; try assumption. now constructor.
Qed.

Lemma syncJobsFromAPI_eq (apiJobs : list ApiJob.t) (w : World) :
  let r := normalizeAPIJobs host apiJobs w in
  let js := List.filter is_admin (jobs w) ++ r.1 in
  syncJobsFromAPI host apiJobs w =
  (tt, mkWorld js (<[STORAGE_KEY := Json js]> (localStorage w))
               (clock_reads r.2) (random_draws w)).
Proof.
  cbv zeta. unfold syncJobsFromAPI, bind.
  pose proof (normalizeFrom_frame apiJobs 0 w) as H. cbv zeta in H.
  fold (normalizeAPIJobs host apiJobs w) in H.
  destruct (normalizeAPIJobs host apiJobs w) as [ns w1]. simpl in *.
  destruct H as (Hj & Hs & Hd & _).
  unfold saveToStorage, get_jobs, set_jobs, setItem, bind. simpl.
  now rewrite Hj, Hs, Hd.
Qed.

Lemma filter_of_api (l : list Job.t) :
  Forall (fun j => Job.source j = api) l ->
  List.filter is_admin l = [] /\ List.filter is_api l = l.
Proof.
  induction 1 as [|j l Hj _ [Ha Hb]]; simpl; [easy|].
  unfold is_admin at 1, is_api at 1. rewrite Hj. simpl. now rewrite Hb.
Qed.

Lemma filter_is_api_of_admin (l : list Job.t) :
  List.filter is_api (List.filter is_admin l) = [].
Proof.
  induction l as [|j l IH]; simpl; [reflexivity|].
  unfold is_admin at 1. destruct (Job.source j) eqn:E; simpl; [assumption|].
  unfold is_api at 1. now rewrite E.
Qed.

Lemma filter_idem {A : Type} (f : A -> bool) (l : list A) :
  List.filter f (List.filter f l) = List.filter f l.
Proof.
  induction l as [|a l IH]; simpl; [reflexivity|].
  destruct (f a) eqn:E; simpl; [now rewrite E, IH | assumption].
Qed.

(** C1. [syncJobsFromAPI] replaces the external subset as a whole: the
    catalog it leaves is the local records of the catalog it found, in
    their order and unmodified, followed by the records that the payloads
    normalize to, one per payload and all of provenance [api]; so its
    local part is the old local part, its external part is exactly the
    new batch, it holds N + K records, and this is what is persisted. *)
Theorem syncJobsFromAPI_full_replace (apiJobs : list ApiJob.t) (w : World) :
  let normalized := (normalizeAPIJobs host apiJobs w).1 in
  let w' := (syncJobsFromAPI host apiJobs w).2 in
  jobs w' = List.filter is_admin (jobs w) ++ normalized
  /\ length normalized = length apiJobs
  /\ Forall (fun job => Job.source job = api) normalized
  /\ List.filter is_admin (jobs w') = List.filter is_admin (jobs w)
  /\ List.filter is_api (jobs w') = normalized
  /\ length (jobs w') =
     (length (List.filter is_admin (jobs w)) + length apiJobs)%nat
  /\ localStorage w' !! STORAGE_KEY = Some (Json (jobs w')).
Proof.
  cbv zeta. rewrite syncJobsFromAPI_eq. cbv zeta. simpl.
  destruct (normalizeFrom_frame apiJobs 0 w) as (_ & _ & _ & Hlen & Hsrc & _).
  fold (normalizeAPIJobs host apiJobs w) in Hlen, Hsrc.
  destruct (filter_of_api _ Hsrc) as [Hadm Hapi].
  rewrite !List.filter_app, Hadm, Hapi, filter_idem, filter_is_api_of_admin.
  rewrite app_nil_r, length_app, Hlen, lookup_insert_eq.
  repeat split; assumption.
Qed.

(** C5, as the code has it. The external records that [syncJobsFromAPI]
    leaves carry the lists of their payloads verbatim: the requirements are
    the payload's requirements, else its skills, else empty, and the skills
    are the payload's skills, else its requirements, else empty; no entry is
    trimmed or dropped. *)
Theorem syncJobsFromAPI_lists_verbatim (apiJobs : list ApiJob.t) (w : World) :
  let external :=
    List.filter is_api (jobs (syncJobsFromAPI host apiJobs w).2) in
  List.map Job.requirements external =
    List.map (fun p => or_list (ApiJob.requirements p) (ApiJob.skills p))
             apiJobs
  /\ List.map Job.skills external =
    List.map (fun p => or_list (ApiJob.skills p) (ApiJob.requirements p))
             apiJobs.
Proof.
  cbv zeta. rewrite syncJobsFromAPI_eq. cbv zeta. simpl.
  destruct (normalizeFrom_frame apiJobs 0 w)
    as (_ & _ & _ & _ & Hsrc & Hreq & Hsk).
  fold (normalizeAPIJobs host apiJobs w) in Hsrc, Hreq, Hsk.
  destruct (filter_of_api _ Hsrc) as [_ Hapi].
  rewrite List.filter_app, Hapi, filter_is_api_of_admin. simpl.
  now split.
Qed.

End Sync.

(** C5, as stated, fails: a payload whose skills are [""] and [" Figma "]
    is ingested with both entries as they are. *)
Lemma syncJobsFromAPI_keeps_untidy_entries :
  let w' := (syncJobsFromAPI SampleHost.host [Sample.untidy]
               SampleHost.fresh).2 in
  List.map Job.skills (jobs w') = [[""; " Figma "]]
  /\ ~ Forall (fun job => clean_list (Job.requirements job) = true
                         /\ clean_list (Job.skills job) = true) (jobs w').
Proof.
  cbv zeta. split; [reflexivity|].
  intros H. apply Forall_inv in H. destruct H as [_ H]. discriminate H.
Qed.

(** ** The posting-age label *)

Section Age.

Variable host : Host.

(** [Math.ceil(x / k)] is the least integer [c] with [x <= k * c]. *)
Lemma ceil_div_spec (x k : Z) :
  0 < k ->
  let c := - ((- x) / k) in k * (c - 1) < x <= k * c.
Proof.
  intros Hk c. subst c.
  pose proof (Z.mul_div_le (- x) k Hk).
  pose proof (Z.mul_succ_div_gt (- x) k Hk).
  lia.
Qed.

(** [days_between now ts] is the distance of the two instants in days,
    rounded up. *)
Lemma days_between_spec (now ts : Z) :
  let d := days_between now ts in
  86400000 * (d - 1) < Z.abs (now - ts) <= 86400000 * d.
Proof. apply ceil_div_spec. lia. Qed.

Lemma formatDate_at_parsed (now ts : Z) (dateString : string) :
  Date_parse host dateString = Int ts ->
  let d := days_between now ts in
  formatDate_at host now dateString =
  if d =? 1 then "1 day ago"
  else if d <? 7 then Num.string_of_Z d +:+ " days ago"
  else if d <? 30 then Num.string_of_Z (- ((- d) / 7)) +:+ " weeks ago"
  else Num.string_of_Z (- ((- d) / 30)) +:+ " months ago".
Proof. intros H. unfold formatDate_at. now rewrite H. Qed.

(** The buckets of the age label, for a timestamp that parses. *)
Lemma formatDate_at_buckets (now ts : Z) (dateString : string) :
  Date_parse host dateString = Int ts ->
  let d := days_between now ts in
  (d = 1 -> formatDate_at host now dateString = "1 day ago")
  /\ (1 < d < 7 ->
      formatDate_at host now dateString = Num.string_of_Z d +:+ " days ago")
  /\ (7 <= d < 30 ->
      formatDate_at host now dateString =
      Num.string_of_Z (- ((- d) / 7)) +:+ " weeks ago")
  /\ (30 <= d ->
      formatDate_at host now dateString =
      Num.string_of_Z (- ((- d) / 30)) +:+ " months ago").
Proof.
  intros H d. rewrite (formatDate_at_parsed now ts dateString H). fold d.
  repeat split; intros Hd.
  - now rewrite Hd.
  - destruct (Z.eqb_spec d 1); [lia|]. destruct (Z.ltb_spec d 7); [easy | lia].
  - destruct (Z.eqb_spec d 1); [lia|]. destruct (Z.ltb_spec d 7); [lia|].
    destruct (Z.ltb_spec d 30); [easy | lia].
  - destruct (Z.eqb_spec d 1); [lia|]. destruct (Z.ltb_spec d 7); [lia|].
    destruct (Z.ltb_spec d 30); [lia | easy].
Qed.

(** C3, where the code departs from it: a timestamp that is present and
    that the host does not parse gives the record the label
    ["NaN months ago"], not ["Recently"]; the comparisons of [formatDate]
    are all false on [NaN] and nothing throws. *)
Theorem normalizeAPIJob_unparseable_label
    (job : ApiJob.t) (index : nat) (w : World) (dateString : string) :
  ApiJob.created_at job = Some dateString ->
  Str.nonempty dateString = true ->
  Date_parse host dateString = NaN ->
  (forall now, formatDate_at host now dateString = "NaN months ago")
  /\ Job.posted (normalizeAPIJob host job index w).1 = "NaN months ago".
Proof.
  intros Hc Hne Hnan.
  assert (Hf : forall now,
            formatDate_at host now dateString = "NaN months ago").
  { intros now. unfold formatDate_at. now rewrite Hnan. }
  split; [exact Hf|].
  unfold normalizeAPIJob, Str.truthy, Str.or_opt.
  rewrite Hc, Hne. unfold formatDate, now_iso, Date_now, bind, ret.
  destruct (ApiJob.id job) as [i|]; [destruct (Str.nonempty i)|]; simpl;
    apply Hf.
Qed.

End Age.

(** The payload with [created_at: "not a date"] on the sample host. *)
Lemma normalizeAPIJob_unparseable_label_witness :
  Job.posted
    (normalizeAPIJob SampleHost.host Sample.undated 0 SampleHost.fresh).1
  = "NaN months ago".
Proof.
  apply (normalizeAPIJob_unparseable_label SampleHost.host Sample.undated
           0%nat SampleHost.fresh "not a date"); reflexivity.
Defined.

(** The examples of the specification, two, ten and forty-five days after
    the timestamp, and a timestamp that is absent. *)
Example formatDate_2_days :
  formatDate_at SampleHost.host 1700000000000
    (SampleHost.toISOString (1700000000000 - 2 * 86400000)) = "2 days ago".
Proof. reflexivity. Qed.

Example formatDate_10_days :
  formatDate_at SampleHost.host 1700000000000
    (SampleHost.toISOString (1700000000000 - 10 * 86400000)) = "2 weeks ago".
Proof. reflexivity. Qed.

Example formatDate_45_days :
  formatDate_at SampleHost.host 1700000000000
    (SampleHost.toISOString (1700000000000 - 45 * 86400000)) = "2 months ago".
Proof. reflexivity. Qed.

Example posted_without_timestamp :
  Job.posted
    (normalizeAPIJob SampleHost.host Sample.untidy 0 SampleHost.fresh).1
  = "Recently".
Proof. reflexivity. Qed.

(** ** Decimal texts *)

Lemma to_int_proper (z : Z) :
  Z.to_int z <> Decimal.Pos Decimal.Nil
  /\ Z.to_int z <> Decimal.Neg Decimal.Nil.
Proof.
  destruct z as [|p|p]; simpl; split; try discriminate;
    intros H; injection H; apply Unsigned.to_uint_nonnil.
Qed.

Lemma string_of_Z_inj (x y : Z) :
  Num.string_of_Z x = Num.string_of_Z y -> x = y.
Proof.
  unfold Num.string_of_Z. intros H. apply DecimalZ.to_int_inj.
  destruct (to_int_proper x) as [Hx1 Hx2], (to_int_proper y) as [Hy1 Hy2].
  pose proof (NilZero.isi _ Hx1 Hx2) as Ex.
  pose proof (NilZero.isi _ Hy1 Hy2) as Ey.
  rewrite H in Ex. congruence.
Qed.

Lemma string_of_uint_lacks (d : Decimal.uint) :
  Str.lacks "_" (NilEmpty.string_of_uint d) = true.
Proof. induction d; simpl; auto. Qed.

Lemma string_of_Z_lacks (z : Z) : Str.lacks "_" (Num.string_of_Z z) = true.
Proof.
  unfold Num.string_of_Z, NilZero.string_of_int, NilZero.string_of_uint.
  destruct (Z.to_int z) as [d|d]; destruct d; simpl;
    try reflexivity; apply string_of_uint_lacks.
Qed.

(** Two texts that agree up to the first occurrence of a character agree
    before it and after it. *)
Lemma split_at_first (c : ascii) (a a' r r' : string) :
  Str.lacks c a = true -> Str.lacks c a' = true ->
  a +:+ String c r = a' +:+ String c r' -> a = a' /\ r = r'.
Proof.
  revert a'. induction a as [|x a IH]; intros [|y a'] Ha Ha' H;
    StrFacts.sapp; simpl in Ha, Ha'; inversion H; subst.
  - now split.
  - rewrite Ascii.eqb_refl in Ha'. discriminate.
  - rewrite Ascii.eqb_refl in Ha. discriminate.
  - apply andb_true_iff in Ha as [_ Ha]. apply andb_true_iff in Ha' as [_ Ha'].
    destruct (IH a' Ha Ha' H2) as [-> ->]. now split.
Qed.

(** The ids that [generateId] builds differ as soon as the clock readings
    or the random suffixes do. *)
Lemma generated_id_inj (t t' : Z) (r r' : string) :
  "job_" +:+ Num.string_of_Z t +:+ "_" +:+ r =
  "job_" +:+ Num.string_of_Z t' +:+ "_" +:+ r' ->
  t = t' /\ r = r'.
Proof.
  intros H. StrFacts.sapp. injection H as H.
  apply split_at_first in H as [Ht Hr]; try apply string_of_Z_lacks.
  split; [now apply string_of_Z_inj | assumption].
Qed.

(** ** Adding records *)

Section Add.

Variable host : Host.

(** The record that [addJob] builds from its argument, the generated id
    and the two stamps. *)
Lemma addJob_eq (jobData : JobData.t) (w : World) :
  exists newJob,
    Job.id newJob = idAt host w 0
    /\ Job.source newJob = admin
    /\ addJob host jobData w =
       (newJob,
        mkWorld (newJob :: jobs w)
                (<[STORAGE_KEY := Json (newJob :: jobs w)]> (localStorage w))
                (clock_reads w + 3) (random_draws w + 1)).
Proof.
  eexists. split; [|split]; cycle 2.
  - unfold addJob, generateId, now_iso, Date_now, Math_random_suffix,
      saveToStorage, get_jobs, set_jobs, setItem, bind, ret. simpl.
    rewrite (Nat.add_comm (clock_reads w) 3), (Nat.add_comm (random_draws w) 1).
    reflexivity.
  - unfold idAt. simpl. now rewrite Nat.add_0_r, Nat.add_0_r.
  - reflexivity.
Qed.

Lemma idAt_shift (w w' : World) (k : nat) :
  clock_reads w' = (clock_reads w + 3)%nat ->
  random_draws w' = (random_draws w + 1)%nat ->
  idAt host w' k = idAt host w (S k).
Proof.
  intros Hc Hr. unfold idAt. rewrite Hc, Hr.
  replace (clock_reads w + 3 + 3 * k)%nat with (clock_reads w + 3 * S k)%nat
    by lia.
  replace (random_draws w + 1 + k)%nat with (random_draws w + S k)%nat by lia.
  reflexivity.
Qed.

(** The ids after a run of [addJob] calls: the generated ones, the latest
    first, before those that were there. *)
Lemma addJobs_ids (l : list JobData.t) (w : World) :
  ids (jobs (addJobs host l w).2) =
  rev (List.map (idAt host w) (seq 0 (length l))) ++ ids (jobs w).
Proof.
  revert w. induction l as [|jobData rest IH]; intros w; [reflexivity|].
  destruct (addJob_eq jobData w) as (newJob & Hid & _ & Heq).
  cbn [addJobs]. unfold bind at 1. rewrite Heq.
  rewrite IH. cbn [jobs ids List.map length seq rev].
  rewrite <- seq_shift, List.map_map.
  rewrite (List.map_ext (fun k => idAt host _ k) (fun k => idAt host w (S k)))
    by (intros k; now apply idAt_shift).
  unfold ids. now rewrite Hid, <- app_assoc.
Qed.

(** C2, as the code has it. A run of [addJob] calls puts the generated ids,
    [job_<clock reading>_<random suffix>], in front of the ids that were
    there; started from a catalog of unique ids, it leaves unique ids
    exactly when the generated ids differ from each other and from those
    of the catalog; two generated ids are equal exactly when both the
    clock readings and the random suffixes they are built from are.
    [addJob] itself does not look at the ids in the catalog. *)
Theorem addJobs_unique_iff_fresh (l : list JobData.t) (w : World) :
  NoDup (ids (jobs w)) ->
  let generated := List.map (idAt host w) (seq 0 (length l)) in
  ids (jobs (addJobs host l w).2) = rev generated ++ ids (jobs w)
  /\ (NoDup (ids (jobs (addJobs host l w).2)) <->
      NoDup generated /\ forall id, id ∈ generated -> id ∉ ids (jobs w))
  /\ (forall j k,
        idAt host w j = idAt host w k <->
        clock host (clock_reads w + 3 * j)%nat =
        clock host (clock_reads w + 3 * k)%nat
        /\ random_suffix host (random_draws w + j)%nat =
           random_suffix host (random_draws w + k)%nat).
Proof.
  intros Hw generated. split; [apply addJobs_ids|]. split; cycle 1.
  { intros j k. unfold idAt. split.
    - apply generated_id_inj.
    - now intros [-> ->]. }
  rewrite addJobs_ids. fold generated.
  rewrite NoDup_app, <- (Permutation_rev generated). split.
  - intros (Hg & Hd & _). split; [assumption|].
    intros id Hin. apply Hd. now rewrite <- (Permutation_rev generated).
  - intros [Hg Hd]. repeat split; [assumption| |assumption].
    intros id Hin. apply Hd. now rewrite (Permutation_rev generated).
Qed.

End Add.

(** Two adds on the sample host, whose clock advances and whose draws
    differ, keep the ids of the sample catalog unique. *)
Lemma addJobs_unique_iff_fresh_witness :
  NoDup (ids (jobs (addJobs SampleHost.host
                      [Sample.reactJob; Sample.reactJob] Sample.catalog).2)).
Proof.
  assert (Hw : NoDup (ids (jobs Sample.catalog))) by compute_done.
  destruct (addJobs_unique_iff_fresh SampleHost.host
              [Sample.reactJob; Sample.reactJob] Sample.catalog Hw)
    as (_ & Hiff & _).
  apply Hiff. split; [compute_done|]. apply Forall_forall. compute_done.
Defined.

(** C2, as stated, fails: two [addJob] calls in the same millisecond whose
    draws agree give both records the same id. *)
Lemma addJob_twice_same_id :
  let w := (addJobs SampleHost.still_host
              [Sample.reactJob; Sample.reactJob] SampleHost.fresh).2 in
  NoDup (ids (jobs SampleHost.fresh))
  /\ ids (jobs w) =
     ["job_1700000000000_k3j9x2m1q"; "job_1700000000000_k3j9x2m1q"]
  /\ ~ NoDup (ids (jobs w)).
Proof.
  cbv zeta. split; [constructor|]. split; [reflexivity|].
  intros H. change (ids _) with
    ["job_1700000000000_k3j9x2m1q"; "job_1700000000000_k3j9x2m1q"] in H.
  apply NoDup_cons in H as [H _]. apply H. constructor.
Qed.

(** ** Updating a record *)

Lemma findIndex_Some (id : string) (l : list Job.t) (index : nat) :
  findIndex id l = Some index <->
  exists job, l !! index = Some job /\ Job.id job = id
    /\ forall j other, l !! j = Some other -> (j < index)%nat ->
                       Job.id other <> id.
Proof.
  unfold findIndex. split.
  - intros H. apply fmap_Some in H as [[i job] [H ->]].
    apply list_find_Some in H. now exists job.
  - intros [job H]. apply fmap_Some. exists (index, job).
    split; [now apply list_find_Some | reflexivity].
Qed.

Lemma findIndex_None (id : string) (l : list Job.t) :
  findIndex id l = None <-> id ∉ ids l.
Proof.
  unfold findIndex, ids. rewrite fmap_None, list_find_None, Forall_forall.
  split.
  - intros H Hin. apply list_elem_of_fmap in Hin as [job [-> Hjob]].
    now apply (H job).
  - intros H job Hjob Hid. apply H, list_elem_of_fmap. now exists job.
Qed.

Lemma findIndex_of_id (id : string) (l : list Job.t) :
  id ∈ ids l ->
  exists index job,
    findIndex id l = Some index /\ l !! index = Some job /\ Job.id job = id.
Proof.
  intros Hin. destruct (findIndex id l) as [index|] eqn:E.
  - destruct (proj1 (findIndex_Some id l index) E) as (job & Hl & Hid & _).
    now exists index, job.
  - now apply findIndex_None in E.
Qed.

Lemma merge_retained (job : Job.t) (updates : Partial.t) (stamp : string) :
  retained updates job (merge job updates stamp).
Proof. unfold retained. simpl. repeat split; intros ->; reflexivity. Qed.

Lemma merge_applied (job : Job.t) (updates : Partial.t) (stamp : string) :
  applied updates (merge job updates stamp).
Proof. unfold applied. simpl. repeat split; intros v ->; reflexivity. Qed.

Section Update.

Variable host : Host.

Lemma updateJob_found (id : string) (updates : Partial.t) (w : World)
    (index : nat) (job : Job.t) :
  findIndex id (jobs w) = Some index ->
  jobs w !! index = Some job ->
  let updated := merge job updates (stampAt host w) in
  let js := <[index := updated]> (jobs w) in
  updateJob host id updates w =
  (Some updated,
   mkWorld js (<[STORAGE_KEY := Json js]> (localStorage w))
           (S (clock_reads w)) (random_draws w)).
Proof.
  intros Hi Hj. unfold updateJob, bind, get_jobs at 1. rewrite Hi, Hj.
  reflexivity.
Qed.

Lemma updateJob_absent (id : string) (updates : Partial.t) (w : World) :
  id ∉ ids (jobs w) -> updateJob host id updates w = (None, w).
Proof.
  intros H%findIndex_None. unfold updateJob, bind, get_jobs at 1.
  now rewrite H.
Qed.

(** C4, as the code has it. For an id of the catalog, [updateJob] replaces
    the first record of that id by its merge with the given keys: every
    field but [updated_at] whose key is not given keeps its value, so
    [created_at] and the provenance are unchanged when those keys are not
    given; [updated_at] is the stamp of the clock reading of the call, so
    that, when the stored stamp is that of an earlier reading of a clock
    that does not go back, the two stamps are those of two instants of
    which the new one is not the earlier; the records at all other
    positions are untouched, and the new collection is persisted.  For an id that is not in the catalog it
    returns nothing and leaves the whole state, storage included, as it
    is. *)
Theorem updateJob_frame (id : string) (updates : Partial.t) (w : World) :
  (id ∈ ids (jobs w) ->
   exists index job,
     findIndex id (jobs w) = Some index
     /\ jobs w !! index = Some job /\ Job.id job = id
     /\ let updated := merge job updates (stampAt host w) in
        let r := updateJob host id updates w in
        r.1 = Some updated
        /\ jobs r.2 = <[index := updated]> (jobs w)
        /\ (forall i, i <> index -> jobs r.2 !! i = jobs w !! i)
        /\ length (jobs r.2) = length (jobs w)
        /\ localStorage r.2 !! STORAGE_KEY = Some (Json (jobs r.2))
        /\ retained updates job updated
        /\ (Partial.created_at updates = None ->
            Job.created_at updated = Job.created_at job)
        /\ (Partial.source updates = None ->
            Job.source updated = Job.source job)
        /\ Job.updated_at updated = stampAt host w
        /\ (forall n,
              (n <= clock_reads w)%nat ->
              Job.updated_at job = toISOString host (clock host n) ->
              (forall i j, (i <= j)%nat -> clock host i <= clock host j) ->
              exists t0 t,
                Job.updated_at job = toISOString host t0
                /\ Job.updated_at updated = toISOString host t
                /\ t0 <= t))
  /\ (id ∉ ids (jobs w) -> updateJob host id updates w = (None, w)).
Proof.
  split; [|apply updateJob_absent].
  intros Hin. destruct (findIndex_of_id id (jobs w) Hin)
    as (index & job & Hi & Hj & Hid).
  exists index, job. split_and!; [assumption..|]. cbv zeta.
  rewrite (updateJob_found id updates w index job Hi Hj). cbv zeta. simpl.
  pose proof (merge_retained job updates (stampAt host w)) as Hr.
  split_and!; try reflexivity.
  - intros i Hne. now apply list_lookup_insert_ne.
  - apply length_insert.
  - apply lookup_insert_eq.
  - exact Hr.
  - apply Hr.
  - apply Hr.
  - intros n Hn Hold Hmono.
    exists (clock host n), (clock host (clock_reads w)).
    split_and!; [exact Hold | reflexivity | now apply Hmono].
Qed.

(** C10. For a record that [updateJob] finds, every key of [updates] other
    than [updated_at] ends up in the stored record with the value given,
    the keys [id], [created_at] and [source] among them, and [updated_at]
    is the stamp of the call whatever [updates] says; the fields whose keys
    are not given are retained. *)
Theorem updateJob_copies_every_key (id : string) (updates : Partial.t)
    (w : World) (index : nat) (job : Job.t) :
  findIndex id (jobs w) = Some index ->
  jobs w !! index = Some job ->
  let r := updateJob host id updates w in
  exists updated,
    r.1 = Some updated
    /\ jobs r.2 !! index = Some updated
    /\ applied updates updated
    /\ (forall v, Partial.id updates = Some v -> Job.id updated = v)
    /\ (forall v, Partial.created_at updates = Some v ->
                  Job.created_at updated = v)
    /\ (forall v, Partial.source updates = Some v -> Job.source updated = v)
    /\ Job.updated_at updated = stampAt host w
    /\ retained updates job updated.
Proof.
  intros Hi Hj. cbv zeta.
  rewrite (updateJob_found id updates w index job Hi Hj). cbv zeta. simpl.
  exists (merge job updates (stampAt host w)).
  pose proof (merge_applied job updates (stampAt host w)) as Ha.
  pose proof (merge_retained job updates (stampAt host w)) as Hr.
  split_and!; try (reflexivity || exact Ha || exact Hr || apply Ha).
  apply list_lookup_insert_eq. now apply lookup_lt_Some in Hj.
Qed.

End Update.

(** Renaming the first record of the sample catalog, and updating an id
    that it does not hold. *)
Lemma updateJob_frame_witness :
  (exists updated,
     (updateJob SampleHost.host "job_1" Sample.retitle Sample.catalog).1 =
     Some updated
     /\ Job.title updated = "X"
     /\ Job.created_at updated = Job.created_at Sample.stored
     /\ Job.source updated = admin
     /\ exists t0 t,
          Job.updated_at Sample.stored = SampleHost.toISOString t0
          /\ Job.updated_at updated = SampleHost.toISOString t
          /\ t0 <= t)
  /\ updateJob SampleHost.host "job_9" Sample.retitle Sample.catalog =
     (None, Sample.catalog).
Proof.
  split.
  - destruct (updateJob_frame SampleHost.host "job_1" Sample.retitle
                Sample.catalog) as [H _].
    destruct H as (index & job & _ & Hj & Hid & Hr & _ & _ & _ & _ & _ & Hc
                   & Hs & _ & Hm); [compute_done|].
    assert (job = Sample.stored) as ->.
    { destruct index as [|[|index]]; simpl in Hj; inversion Hj; subst;
        [reflexivity | discriminate Hid]. }
    exists (merge Sample.stored Sample.retitle
              (stampAt SampleHost.host Sample.catalog)).
    split_and!; [exact Hr | reflexivity | now apply Hc | now apply Hs |].
    apply (Hm 0%nat); [simpl; lia | reflexivity |].
    intros i j Hij. unfold SampleHost.host, SampleHost.clock. simpl. lia.
  - apply (updateJob_frame SampleHost.host "job_9" Sample.retitle
             Sample.catalog).
    compute_done.
Defined.

(** C4, as stated, fails twice: an update that names the key [source]
    changes the provenance of the record, and an update made while the
    clock reads a day earlier than the stored stamp moves [updated_at] a
    day back. *)
Lemma updateJob_changes_provenance :
  let r := updateJob SampleHost.host "job_1" Sample.toApi Sample.catalog in
  let e :=
    updateJob SampleHost.early_host "job_1" Sample.retitle Sample.catalog in
  (Job.source <$> jobs Sample.catalog !! 0%nat = Some admin
   /\ Job.id <$> jobs Sample.catalog !! 0%nat = Some "job_1"
   /\ Job.source <$> r.1 = Some api
   /\ Job.source <$> jobs r.2 !! 0%nat = Some api)
  /\ (Job.updated_at <$> jobs Sample.catalog !! 0%nat =
      Some "2023-11-14T22:13:20.000Z"
      /\ Job.updated_at <$> e.1 = Some "2023-11-13T22:13:20.000Z"
      /\ Job.updated_at <$> jobs e.2 !! 0%nat =
         Some "2023-11-13T22:13:20.000Z"
      /\ match e.1, jobs Sample.catalog !! 0%nat with
         | Some new, Some old =>
             String.ltb (Job.updated_at new) (Job.updated_at old) = true
         | _, _ => False
         end).
Proof. cbv zeta. repeat split; vm_compute; reflexivity. Qed.

(** An update of the first record of the sample catalog that names the
    key [id]. *)
Lemma updateJob_copies_every_key_witness :
  exists updated,
    (updateJob SampleHost.host "job_1" Sample.reid Sample.catalog).1 =
    Some updated
    /\ Job.id updated = "42".
Proof.
  destruct (updateJob_copies_every_key SampleHost.host "job_1" Sample.reid
              Sample.catalog 0%nat Sample.stored eq_refl eq_refl)
    as (updated & Hr & _ & _ & Hid & _).
  exists updated. split; [exact Hr | now apply Hid].
Defined.

(** An update that names the key [id] with the id of another record leaves
    two records of that id. *)
Example updateJob_duplicates_id :
  ids (jobs Sample.catalog) = ["job_1"; "42"]
  /\ ids (jobs (updateJob SampleHost.host "job_1" Sample.reid
                  Sample.catalog).2) = ["42"; "42"].
Proof. split; reflexivity. Qed.

(** ** Queries *)

Section Filters.

Context {A : Type}.

Lemma filter_filter (f g : A -> bool) (l : list A) :
  List.filter f (List.filter g l) = List.filter (fun x => g x && f x) l.
Proof.
  induction l as [|a l IH]; simpl; [reflexivity|].
  destruct (g a); simpl; [destruct (f a)|]; now rewrite IH.
Qed.

Lemma filter_true (l : list A) : List.filter (fun _ => true) l = l.
Proof. induction l as [|a l IH]; simpl; [reflexivity | now rewrite IH]. Qed.

Lemma filter_sublist (f : A -> bool) (l : list A) :
  sublist (List.filter f l) l.
Proof.
  induction l as [|a l IH]; simpl; [constructor|].
  destruct (f a); now constructor.
Qed.

Lemma existsb_map {B : Type} (f : B -> bool) (g : A -> B) (l : list A) :
  existsb f (List.map g l) = existsb (fun a => f (g a)) l.
Proof. induction l as [|a l IH]; simpl; [reflexivity | now rewrite IH]. Qed.

End Filters.

(** The stages of [getFilteredJobs] amount to one pass that keeps the
    records meeting all the conditions. *)
Lemma filterBy_passes (query : string) (filters : JobFilters.t)
    (l : list Job.t) :
  filterBy query filters l = List.filter (passes query filters) l.
Proof.
  unfold filterBy, passes. destruct filters as [loc ty ex rem sk]. simpl.
  destruct (Str.nonempty query);
    destruct loc as [loc|]; try destruct (Str.nonempty loc);
    destruct ty as [ty|]; try destruct (Str.nonempty ty);
    destruct ex as [ex|]; try destruct (Str.nonempty ex);
    destruct rem as [rem|]; destruct sk as [[|s sk]|];
    rewrite ?filter_filter; simpl;
    try (symmetry; apply filter_true);
    apply List.filter_ext; intros job;
    rewrite ?andb_true_r, ?andb_assoc; reflexivity.
Qed.

Lemma getFilteredJobs_eq (query : string) (filters : JobFilters.t)
    (w : World) :
  getFilteredJobs query filters w =
  (List.filter (passes query filters) (jobs w), w).
Proof.
  unfold getFilteredJobs, bind, get_jobs, ret. now rewrite filterBy_passes.
Qed.

(** A query without blank matches the searchable text exactly when it
    matches one of the fields that make it up. *)
Lemma searchableText_mentions (term : string) (job : Job.t) :
  Str.nonempty term = true -> Str.no_blank term = true ->
  Str.includes (Str.toLowerCase (searchableText job)) term =
  mentions term job.
Proof.
  intros Hne Hnb. unfold searchableText, mentions.
  rewrite !StrFacts.toLowerCase_app.
  change (Str.toLowerCase " ") with " ".
  rewrite !StrFacts.includes_around_blank by assumption.
  rewrite StrFacts.toLowerCase_join, StrFacts.includes_join by assumption.
  now rewrite existsb_map, !orb_assoc.
Qed.

Lemma includes_appears (term text : string) :
  Str.includes (Str.toLowerCase text) (Str.toLowerCase term) = true
  <-> appears_in term text.
Proof. apply StrFacts.includes_spec. Qed.

Lemma existsb_appears (term : string) (l : list string) :
  existsb (fun s => Str.includes (Str.toLowerCase s) (Str.toLowerCase term))
          l = true
  <-> exists skill, In skill l /\ appears_in term skill.
Proof.
  rewrite existsb_exists. split; intros [s [Hin H]]; exists s;
    (split; [assumption | now apply includes_appears]).
Qed.

Lemma mentions_appears (term : string) (job : Job.t) :
  mentions (Str.toLowerCase term) job = true <->
  appears_in term (Job.title job)
  \/ appears_in term (Job.company job)
  \/ appears_in term (Job.description job)
  \/ exists skill, In skill (Job.skills job) /\ appears_in term skill.
Proof.
  unfold mentions.
  rewrite !orb_true_iff, !includes_appears, existsb_appears. tauto.
Qed.

Lemma matchesTerm_appears (term : string) (job : Job.t) :
  matchesTerm (Str.toLowerCase term) job = true <->
  appears_in term (Job.title job)
  \/ appears_in term (Job.company job)
  \/ appears_in term (Job.location job)
  \/ appears_in term (Job.description job)
  \/ exists skill, In skill (Job.skills job) /\ appears_in term skill.
Proof.
  unfold matchesTerm.
  rewrite !orb_true_iff, !includes_appears, existsb_appears. tauto.
Qed.

(** C6. The conditions of [getFilteredJobs] compose by conjunction, and the
    result keeps the order of the collection: it is the collection filtered
    by the conjunction of the conditions.  For the query ["react"] and the
    filter [{remote: true}] it is the collection filtered by: "react"
    occurs, case ignored, in the title, the company, the description or a
    skill, and [remote] is [true]. *)
Theorem getFilteredJobs_react_remote (w : World) :
  (forall query filters,
     getFilteredJobs query filters w =
     (List.filter (passes query filters) (jobs w), w))
  /\ let result := (getFilteredJobs "react" Sample.remoteOnly w).1 in
     result =
       List.filter (fun job => mentions "react" job && Job.remote job)
                   (jobs w)
     /\ sublist result (jobs w)
     /\ forall job,
          In job result <->
          In job (jobs w)
          /\ (appears_in "react" (Job.title job)
              \/ appears_in "react" (Job.company job)
              \/ appears_in "react" (Job.description job)
              \/ exists skill,
                   In skill (Job.skills job) /\ appears_in "react" skill)
          /\ Job.remote job = true.
Proof.
  split; [intros; apply getFilteredJobs_eq|]. cbv zeta.
  rewrite getFilteredJobs_eq. simpl.
  assert (E : List.filter (passes "react" Sample.remoteOnly) (jobs w) =
              List.filter (fun job => mentions "react" job && Job.remote job)
                          (jobs w)).
  { apply List.filter_ext. intros job. unfold passes. simpl.
    change (Str.toLowerCase "react") with "react".
    rewrite searchableText_mentions by reflexivity.
    rewrite !andb_true_r. now destruct (Job.remote job). }
  rewrite E. split; [reflexivity|]. split; [apply filter_sublist|].
  intros job. rewrite List.filter_In, andb_true_iff.
  now rewrite <- (mentions_appears "react" job).
Qed.

(** C7, as the code has it. For a non-empty query:
    - [filterJobs] of the admin job manager keeps a record exactly when the
      query occurs, case ignored, in its title, company, location,
      description or one of its skills;
    - [getFilteredJobs] keeps a record exactly when the query occurs, case
      ignored, in the text made of its title, company, description and
      skills joined by blanks, in which the location has no part;
    - for a query without blank this is: the query occurs in the title,
      the company, the description or one of the skills. *)
Theorem query_matches (query : string) (job : Job.t) :
  Str.nonempty query = true ->
  (forall listed,
     In job (filterJobs listed query) <->
     In job listed
     /\ (appears_in query (Job.title job)
         \/ appears_in query (Job.company job)
         \/ appears_in query (Job.location job)
         \/ appears_in query (Job.description job)
         \/ exists skill,
              In skill (Job.skills job) /\ appears_in query skill))
  /\ (forall w,
        In job (getFilteredJobs query JobFilters.empty w).1 <->
        In job (jobs w) /\ appears_in query (searchableText job))
  /\ (Str.no_blank query = true ->
      forall w,
        In job (getFilteredJobs query JobFilters.empty w).1 <->
        In job (jobs w)
        /\ (appears_in query (Job.title job)
            \/ appears_in query (Job.company job)
            \/ appears_in query (Job.description job)
            \/ exists skill,
                 In skill (Job.skills job) /\ appears_in query skill)).
Proof.
  intros Hne.
  assert (G : forall w,
            In job (getFilteredJobs query JobFilters.empty w).1 <->
            In job (jobs w)
            /\ Str.includes (Str.toLowerCase (searchableText job))
                            (Str.toLowerCase query) = true).
  { intros w. rewrite getFilteredJobs_eq. simpl. rewrite List.filter_In.
    unfold passes. simpl. now rewrite Hne, !andb_true_r. }
  split_and!.
  - intros listed. unfold filterJobs. rewrite Hne, List.filter_In.
    now rewrite matchesTerm_appears.
  - intros w. now rewrite G, includes_appears.
  - intros Hnb w. rewrite G, <- mentions_appears.
    rewrite searchableText_mentions; [reflexivity| |].
    + now rewrite StrFacts.nonempty_toLowerCase.
    + now rewrite StrFacts.no_blank_toLowerCase.
Qed.

(** The two searches on the sample catalog. *)
Lemma query_matches_witness :
  In Sample.stored (filterJobs (jobs Sample.catalog) "BERLIN")
  /\ In Sample.stored
        (getFilteredJobs "React" JobFilters.empty Sample.catalog).1.
Proof.
  destruct (query_matches "BERLIN" Sample.stored eq_refl) as (Hf & _ & _).
  destruct (query_matches "React" Sample.stored eq_refl) as (_ & _ & Hg).
  split.
  - apply Hf. split; [now left|]. right. right. left. now exists "", "".
  - apply (Hg eq_refl). split; [now left|]. right. right. right.
    exists "React". split; [now left | now exists "", ""].
Defined.

(** C7, as stated, fails for [getFilteredJobs]: a record located in Berlin
    is not found by the query ["berlin"], which [filterJobs] finds. *)
Lemma getFilteredJobs_ignores_location :
  In Sample.stored (jobs Sample.catalog)
  /\ appears_in "berlin" (Job.location Sample.stored)
  /\ ~ In Sample.stored
        (getFilteredJobs "berlin" JobFilters.empty Sample.catalog).1
  /\ In Sample.stored (filterJobs (jobs Sample.catalog) "berlin").
Proof.
  split_and!.
  - now left.
  - now exists "", "".
  - vm_compute. tauto.
  - vm_compute. now left.
Qed.

(** ** The access gate *)

Lemma authenticateAdmin_correct (w : World) :
  authenticateAdmin ADMIN_PASSCODE w =
  (true,
   mkWorld (jobs w) (<[ADMIN_SESSION_KEY := Text "true"]> (localStorage w))
           (clock_reads w) (random_draws w)).
Proof. reflexivity. Qed.

Lemma authenticateAdmin_wrong (passcode : string) (w : World) :
  passcode <> ADMIN_PASSCODE -> authenticateAdmin passcode w = (false, w).
Proof.
  intros H. unfold authenticateAdmin.
  now destruct (String.eqb_spec passcode ADMIN_PASSCODE).
Qed.

(** C8. From any state, authenticating with the passcode returns [true]
    and [isAdminAuthenticated] is [true] afterwards; after [logoutAdmin] it
    is [false]; authenticating with any other text returns [false] and
    leaves the state, and so the answer of [isAdminAuthenticated], as it
    was. *)
Theorem auth_round_trip (w : World) (wrong : string) :
  let r := authenticateAdmin ADMIN_PASSCODE w in
  r.1 = true
  /\ (isAdminAuthenticated r.2).1 = true
  /\ (isAdminAuthenticated (logoutAdmin r.2).2).1 = false
  /\ jobs (logoutAdmin r.2).2 = jobs w
  /\ (wrong <> ADMIN_PASSCODE ->
      authenticateAdmin wrong w = (false, w)
      /\ (isAdminAuthenticated (authenticateAdmin wrong w).2).1 =
         (isAdminAuthenticated w).1).
Proof.
  cbv zeta. rewrite authenticateAdmin_correct.
  unfold isAdminAuthenticated, logoutAdmin, getItem, removeItem, bind, ret.
  simpl. rewrite lookup_insert_eq, lookup_delete_eq.
  split_and!; try reflexivity.
  intros H. now rewrite (authenticateAdmin_wrong wrong w H).
Qed.

(** A wrong passcode on the sample catalog. *)
Lemma auth_round_trip_witness :
  authenticateAdmin "123456" Sample.catalog = (false, Sample.catalog)
  /\ (isAdminAuthenticated (authenticateAdmin "123456" Sample.catalog).2).1
     = false.
Proof.
  destruct (auth_round_trip Sample.catalog "123456") as (_ & _ & _ & _ & H).
  destruct H as [H1 H2]; [discriminate|].
  split; [exact H1 | rewrite H2; reflexivity].
Defined.

(** ** Synchronization that fails *)

Section Search.

Variable host : Host.

(** C9. When the fetch of [searchJobs] fails, by a rejected request, an
    error response or a body that does not parse, the call leaves the whole
    state as it is, the collection and what is persisted, and returns the
    filtered view of the collection as it is. *)
Theorem searchJobs_failure_atomic (query : string) (filters : JobFilters.t)
    (outcome : FetchOutcome) (w : World) :
  fetch_failed outcome = true ->
  searchJobs host query filters true outcome w =
  (filterBy query filters (jobs w), w)
  /\ searchJobs host query filters true outcome w =
     getFilteredJobs query filters w.
Proof.
  intros H. unfold searchJobs. simpl.
  destruct outcome as [|[|] [data|]]; try discriminate H; now split.
Qed.

End Search.

(** An error response on the sample catalog. *)
Lemma searchJobs_failure_atomic_witness :
  searchJobs SampleHost.host "react" Sample.remoteOnly true
             (Response false None) Sample.catalog =
  ([Sample.stored], Sample.catalog).
Proof.
  apply (searchJobs_failure_atomic SampleHost.host "react" Sample.remoteOnly
           (Response false None) Sample.catalog).
  reflexivity.
Defined.

(** When the fetch succeeds the catalog is replaced, so the failure cases
    are the ones that keep it. *)
Example searchJobs_success_replaces :
  ids (jobs (searchJobs SampleHost.host "" JobFilters.empty true
               (Response true (Some (DataArray [Sample.untidy])))
               Sample.catalog).2) = ["job_1"; "7"].
Proof. reflexivity. Qed.

(** ** Deleting records *)

Lemma filter_all {A : Type} (f : A -> bool) (l : list A) :
  length (List.filter f l) = length l -> List.filter f l = l.
Proof.
  induction l as [|a l IH]; simpl; [reflexivity|].
  pose proof (List.filter_length_le f l) as Hle.
  destruct (f a); simpl; intros H; [f_equal; apply IH; lia | lia].
Qed.

Lemma filter_keeps_all {A : Type} (f : A -> bool) (l : list A) :
  (length (List.filter f l) <? length l)%nat = false ->
  List.filter f l = l.
Proof.
  intros H%Nat.ltb_ge. apply filter_all.
  pose proof (List.filter_length_le f l). lia.
Qed.

Lemma elem_of_ids (id : string) (l : list Job.t) :
  id ∈ ids l <-> exists job, In job l /\ Job.id job = id.
Proof.
  unfold ids. rewrite list_elem_of_In, in_map_iff.
  split; intros [job [H1 H2]]; exists job; tauto.
Qed.

Lemma filter_other_ids (id : string) (l : list Job.t) :
  id ∉ ids (List.filter (fun job => negb (String.eqb (Job.id job) id)) l).
Proof.
  rewrite elem_of_ids. intros (job & Hin & Hid).
  apply List.filter_In in Hin as [_ Hne]. subst id.
  now rewrite String.eqb_refl in Hne.
Qed.

Lemma filter_shorter_iff (id : string) (l : list Job.t) :
  (length (List.filter (fun job => negb (String.eqb (Job.id job) id)) l)
   <? length l)%nat = true <-> id ∈ ids l.
Proof.
  rewrite Nat.ltb_lt, elem_of_ids. split.
  - intros Hlt. induction l as [|job l IH]; simpl in *; [lia|].
    destruct (String.eqb_spec (Job.id job) id) as [E|E]; simpl in *.
    + exists job. now split; [left|].
    + destruct IH as (j & Hj & Hid); [lia|]. exists j. now split; [right|].
  - intros (job & Hin & Hid).
    pose proof (List.filter_length_le
                  (fun job => negb (String.eqb (Job.id job) id)) l) as Hle.
    apply Nat.le_lteq in Hle as [Hlt|Heq]; [assumption|].
    apply filter_all in Heq. rewrite <- Heq in Hin.
    apply List.filter_In in Hin as [_ Hne]. subst id.
    now rewrite String.eqb_refl in Hne.
Qed.

Lemma count_id_length (id : string) (l : list Job.t) :
  length l =
  (length (List.filter (fun job => negb (String.eqb (Job.id job) id)) l)
   + count_id id l)%nat.
Proof.
  unfold count_id.
  pose proof (List.filter_length (fun job => String.eqb (Job.id job) id) l).
  lia.
Qed.

Lemma deleteJob_eq (id : string) (w : World) :
  let kept :=
    List.filter (fun job => negb (String.eqb (Job.id job) id)) (jobs w) in
  deleteJob id w =
  if (length kept <? length (jobs w))%nat then
    (true, mkWorld kept (<[STORAGE_KEY := Json kept]> (localStorage w))
                   (clock_reads w) (random_draws w))
  else (false, w).
Proof.
  cbv zeta. unfold deleteJob, bind, get_jobs, set_jobs, saveToStorage, setItem,
    ret. simpl.
  destruct (_ <? _)%nat eqn:E; [reflexivity|].
  rewrite (filter_keeps_all _ _ E). now destruct w.
Qed.

(** X1. [deleteJob] answers whether the id was in the catalog.  It removes
    every record of that id, keeps the others in their order, and persists
    the result; for an id that is not there it answers [false] and leaves
    the whole state, storage included, as it is. *)
Theorem deleteJob_removes_id (id : string) (w : World) :
  let r := deleteJob id w in
  (r.1 = true <-> id ∈ ids (jobs w))
  /\ jobs r.2 =
     List.filter (fun job => negb (String.eqb (Job.id job) id)) (jobs w)
  /\ (id ∉ ids (jobs r.2))
  /\ (forall job,
        In job (jobs r.2) <-> In job (jobs w) /\ Job.id job <> id)
  /\ length (jobs w) = (length (jobs r.2) + count_id id (jobs w))%nat
  /\ (id ∈ ids (jobs w) -> in_sync r.2)
  /\ (id ∉ ids (jobs w) -> r = (false, w)).
Proof.
  cbv zeta.
  assert (Hj : jobs (deleteJob id w).2 =
               List.filter (fun job => negb (String.eqb (Job.id job) id))
                           (jobs w)).
  { rewrite deleteJob_eq. cbv zeta.
    destruct (_ <? _)%nat eqn:E; [reflexivity|].
    simpl. now rewrite (filter_keeps_all _ _ E). }
  pose proof (filter_shorter_iff id (jobs w)) as Hs.
  split_and!.
  - rewrite <- Hs, deleteJob_eq. cbv zeta. now destruct (_ <? _)%nat.
  - exact Hj.
  - rewrite Hj. apply filter_other_ids.
  - intros job. rewrite Hj, List.filter_In, negb_true_iff.
    now destruct (String.eqb_spec (Job.id job) id).
  - rewrite Hj. apply count_id_length.
  - intros H%Hs. rewrite deleteJob_eq. cbv zeta. rewrite H.
    unfold in_sync. simpl. apply lookup_insert_eq.
  - intros H. rewrite deleteJob_eq. cbv zeta.
    destruct (_ <? _)%nat; [|reflexivity]. exfalso. now apply H, Hs.
Qed.

Lemma deleteJob_removes_id_witness :
  (deleteJob "42" Sample.catalog).1 = true
  /\ in_sync (deleteJob "42" Sample.catalog).2
  /\ deleteJob "job_9" Sample.catalog = (false, Sample.catalog).
Proof.
  destruct (deleteJob_removes_id "42" Sample.catalog)
    as (Ht & _ & _ & _ & _ & Hs & _).
  destruct (deleteJob_removes_id "job_9" Sample.catalog)
    as (_ & _ & _ & _ & _ & _ & Hf).
  assert (Hin : "42" ∈ ids (jobs Sample.catalog)) by compute_done.
  split_and!; [now apply Ht | now apply Hs | apply Hf; compute_done].
Defined.

Lemma includes_id_In (l : list string) (id : string) :
  includes_id l id = true <-> In id l.
Proof.
  unfold includes_id. rewrite existsb_exists. split.
  - intros (x & Hin & E). apply String.eqb_eq in E. now subst.
  - intros H. exists id. split; [assumption | apply String.eqb_refl].
Qed.

Lemma includes_id_app (a b : list string) (id : string) :
  includes_id (a ++ b) id = includes_id a id || includes_id b id.
Proof. apply existsb_app. Qed.

(** The records that [deleteJobs ids] keeps. *)
Lemma deleteJobs_eq (l : list string) (w : World) :
  let kept :=
    List.filter (fun job => negb (includes_id l (Job.id job))) (jobs w) in
  let deletedCount := (length (jobs w) - length kept)%nat in
  deleteJobs l w =
  if (0 <? deletedCount)%nat then
    (deletedCount,
     mkWorld kept (<[STORAGE_KEY := Json kept]> (localStorage w))
             (clock_reads w) (random_draws w))
  else (0%nat, w).
Proof.
  cbv zeta. unfold deleteJobs, bind, get_jobs, set_jobs, saveToStorage,
    setItem, ret. simpl.
  destruct (_ <? _)%nat eqn:E; [reflexivity|].
  apply Nat.ltb_ge in E.
  pose proof (List.filter_length_le
                (fun job => negb (includes_id l (Job.id job))) (jobs w)) as Hle.
  rewrite filter_all by lia.
  replace (length (jobs w) - length (jobs w))%nat with 0%nat by lia.
  now destruct w.
Qed.

Lemma deleteJobs_jobs (l : list string) (w : World) :
  jobs (deleteJobs l w).2 =
  List.filter (fun job => negb (includes_id l (Job.id job))) (jobs w).
Proof.
  rewrite deleteJobs_eq. cbv zeta.
  destruct (_ <? _)%nat eqn:E; [reflexivity|]. simpl.
  apply Nat.ltb_ge in E.
  pose proof (List.filter_length_le
                (fun job => negb (includes_id l (Job.id job))) (jobs w)) as Hle.
  rewrite filter_all by lia. reflexivity.
Qed.

Lemma deleteJobs_count (l : list string) (w : World) :
  (deleteJobs l w).1 =
  length (List.filter (fun job => includes_id l (Job.id job)) (jobs w)).
Proof.
  rewrite deleteJobs_eq. cbv zeta.
  pose proof (List.filter_length
                (fun job => includes_id l (Job.id job)) (jobs w)) as Hlen.
  destruct (_ <? _)%nat eqn:E; simpl.
  - lia.
  - apply Nat.ltb_ge in E. lia.
Qed.

(** X2. [deleteJobs] returns the number of records whose id is listed and
    keeps exactly the records whose id is not, in their order; ids that are
    listed twice or that no record has make no difference.  When nothing is
    removed the whole state, storage included, stays as it is; otherwise
    the result is persisted. *)
Theorem deleteJobs_counts_listed (l : list string) (w : World) :
  let r := deleteJobs l w in
  r.1 = length (List.filter (fun job => includes_id l (Job.id job)) (jobs w))
  /\ jobs r.2 =
     List.filter (fun job => negb (includes_id l (Job.id job))) (jobs w)
  /\ (forall job,
        In job (jobs r.2) <-> In job (jobs w) /\ ~ In (Job.id job) l)
  /\ length (jobs w) = (length (jobs r.2) + r.1)%nat
  /\ (r.1 = 0%nat -> r = (0%nat, w))
  /\ ((0 < r.1)%nat -> in_sync r.2).
Proof.
  cbv zeta. pose proof (deleteJobs_count l w) as Hc.
  pose proof (deleteJobs_jobs l w) as Hj.
  pose proof (List.filter_length
                (fun job => includes_id l (Job.id job)) (jobs w)) as Hlen.
  split_and!.
  - exact Hc.
  - exact Hj.
  - intros job. rewrite Hj, List.filter_In, negb_true_iff.
    rewrite <- includes_id_In. now destruct (includes_id l (Job.id job)).
  - rewrite Hj, Hc. lia.
  - rewrite Hc. intros H0. rewrite deleteJobs_eq. cbv zeta.
    destruct (_ <? _)%nat eqn:E; [|reflexivity].
    apply Nat.ltb_lt in E. lia.
  - rewrite Hc. intros Hpos. rewrite deleteJobs_eq. cbv zeta.
    destruct (_ <? _)%nat eqn:E.
    + unfold in_sync. simpl. apply lookup_insert_eq.
    + apply Nat.ltb_ge in E. lia.
Qed.

Lemma deleteJobs_counts_listed_witness :
  deleteJobs ["nope"; "nope"] Sample.catalog = (0%nat, Sample.catalog)
  /\ in_sync (deleteJobs ["42"; "nope"; "42"] Sample.catalog).2.
Proof.
  destruct (deleteJobs_counts_listed ["nope"; "nope"] Sample.catalog)
    as (_ & _ & _ & _ & H0 & _).
  destruct (deleteJobs_counts_listed ["42"; "nope"; "42"] Sample.catalog)
    as (_ & _ & _ & _ & _ & Hs).
  split; [apply H0; reflexivity | apply Hs; vm_compute; lia].
Defined.

(** X3. The effect of [deleteJobs] depends only on which ids are listed,
    not on their order or on how often they are listed. *)
Theorem deleteJobs_same_ids (a b : list string) (w : World) :
  (forall id, In id a <-> In id b) ->
  deleteJobs a w = deleteJobs b w.
Proof.
  intros H.
  assert (E : forall id, includes_id a id = includes_id b id).
  { intros id. apply eq_true_iff_eq. now rewrite !includes_id_In. }
  rewrite !deleteJobs_eq. cbv zeta.
  rewrite (List.filter_ext
             (fun job => negb (includes_id a (Job.id job)))
             (fun job => negb (includes_id b (Job.id job))))
    by (intros job; now rewrite E).
  reflexivity.
Qed.

Lemma deleteJobs_same_ids_witness :
  deleteJobs ["42"; "job_1"; "42"] Sample.catalog =
  deleteJobs ["job_1"; "42"] Sample.catalog.
Proof.
  apply deleteJobs_same_ids. intros id. simpl. tauto.
Defined.

(** X4. Deleting in two batches amounts to deleting the two lists at once:
    the counts add up and the state left, storage included, is the same. *)
Theorem deleteJobs_app (a b : list string) (w : World) :
  let first := deleteJobs a w in
  let second := deleteJobs b first.2 in
  (deleteJobs (a ++ b) w).1 = (first.1 + second.1)%nat
  /\ (deleteJobs (a ++ b) w).2 = second.2.
Proof.
  cbv zeta.
  assert (Hk : List.filter (fun job => negb (includes_id (a ++ b) (Job.id job)))
                 (jobs w) =
               List.filter (fun job => negb (includes_id b (Job.id job)))
                 (List.filter (fun job => negb (includes_id a (Job.id job)))
                    (jobs w))).
  { rewrite filter_filter. apply List.filter_ext. intros job.
    now rewrite includes_id_app, negb_orb. }
  pose proof (deleteJobs_count (a ++ b) w) as Hab.
  pose proof (deleteJobs_count a w) as Ha.
  pose proof (deleteJobs_count b (deleteJobs a w).2) as Hb.
  pose proof (deleteJobs_jobs a w) as Ja.
  pose proof (List.filter_length
                (fun job => includes_id a (Job.id job)) (jobs w)) as La.
  pose proof (List.filter_length
                (fun job => includes_id b (Job.id job))
                (jobs (deleteJobs a w).2)) as Lb.
  pose proof (List.filter_length
                (fun job => includes_id (a ++ b) (Job.id job)) (jobs w)) as Lab.
  cbv beta in La, Lb, Lab. rewrite Hk in Lab. rewrite Ja in Lb, Hb.
  split; [rewrite Hab, Ha, Hb; lia|].
  rewrite (deleteJobs_eq b). cbv zeta. rewrite Ja.
  rewrite (deleteJobs_eq (a ++ b)). cbv zeta. rewrite Hk.
  rewrite (deleteJobs_eq a). cbv zeta.
  set (ka := List.filter (fun job => negb (includes_id a (Job.id job)))
               (jobs w)) in *.
  set (kb := List.filter (fun job => negb (includes_id b (Job.id job))) ka)
    in *.
  assert (Hle1 : (length ka <= length (jobs w))%nat)
    by apply List.filter_length_le.
  assert (Hle2 : (length kb <= length ka)%nat)
    by apply List.filter_length_le.
  destruct (0 <? length (jobs w) - length ka)%nat eqn:Ea; simpl.
  - apply Nat.ltb_lt in Ea.
    destruct (0 <? length ka - length kb)%nat eqn:Eb; simpl.
    + replace (0 <? length (jobs w) - length kb)%nat with true
        by (symmetry; apply Nat.ltb_lt; apply Nat.ltb_lt in Eb;
            clearbody ka kb; lia).
      now rewrite insert_insert_eq.
    + apply Nat.ltb_ge in Eb.
      assert (kb = ka) as ->
        by (apply filter_all; fold kb; clearbody ka kb; lia).
      replace (0 <? length (jobs w) - length ka)%nat with true
        by (symmetry; now apply Nat.ltb_lt).
      reflexivity.
  - apply Nat.ltb_ge in Ea.
    assert (ka = jobs w) as Eq
      by (apply filter_all; fold ka; clearbody ka kb; lia).
    rewrite Eq. reflexivity.
Qed.

(** X5. Deleting one id with [deleteJobs] leaves the state that [deleteJob]
    leaves, and [deleteJob] answers [true] exactly when the count is not
    zero. *)
Theorem deleteJobs_single (id : string) (w : World) :
  (deleteJobs [id] w).2 = (deleteJob id w).2
  /\ (deleteJob id w).1 = (0 <? (deleteJobs [id] w).1)%nat.
Proof.
  rewrite deleteJobs_eq, deleteJob_eq. cbv zeta.
  assert (E : List.filter (fun job => negb (includes_id [id] (Job.id job)))
                (jobs w) =
              List.filter (fun job => negb (String.eqb (Job.id job) id))
                (jobs w)).
  { apply List.filter_ext. intros job. unfold includes_id. simpl.
    now rewrite orb_false_r. }
  rewrite E.
  set (kept := List.filter _ (jobs w)).
  assert (Hle : (length kept <= length (jobs w))%nat)
    by apply List.filter_length_le.
  destruct (length kept <? length (jobs w))%nat eqn:E1.
  - apply Nat.ltb_lt in E1.
    replace (0 <? length (jobs w) - length kept)%nat with true
      by (symmetry; apply Nat.ltb_lt; lia).
    simpl. split; [reflexivity|]. symmetry. apply Nat.ltb_lt. lia.
  - apply Nat.ltb_ge in E1.
    replace (0 <? length (jobs w) - length kept)%nat with false
      by (symmetry; apply Nat.ltb_ge; lia).
    now split.
Qed.

Lemma filter_none {A : Type} (f : A -> bool) (l : list A) :
  (forall x, In x l -> f x = false) -> List.filter f l = [].
Proof.
  induction l as [|a l IH]; simpl; intros H; [reflexivity|].
  rewrite (H a) by now left. apply IH. intros x Hx. apply H. now right.
Qed.

Lemma filter_every {A : Type} (f : A -> bool) (l : list A) :
  (forall x, In x l -> f x = true) -> List.filter f l = l.
Proof.
  induction l as [|a l IH]; simpl; intros H; [reflexivity|].
  rewrite (H a) by now left. f_equal. apply IH. intros x Hx. apply H.
  now right.
Qed.

(** X6. [deleteAllJobs] returns the number of records and leaves an empty
    collection, which it persists also when there was nothing to delete;
    [deleteJobs] of all the ids leaves the same collection and returns the
    same number. *)
Theorem deleteAllJobs_empties (w : World) :
  let r := deleteAllJobs w in
  r.1 = length (jobs w)
  /\ jobs r.2 = []
  /\ localStorage r.2 !! STORAGE_KEY = Some (Json [])
  /\ (deleteJobs (ids (jobs w)) w).1 = r.1
  /\ jobs (deleteJobs (ids (jobs w)) w).2 = [].
Proof.
  cbv zeta.
  assert (E : forall job, In job (jobs w) ->
                includes_id (ids (jobs w)) (Job.id job) = true).
  { intros job Hin. apply includes_id_In. unfold ids. now apply in_map. }
  split_and!; try reflexivity.
  - unfold deleteAllJobs, bind, get_jobs, set_jobs, saveToStorage, setItem,
      ret. simpl. apply lookup_insert_eq.
  - rewrite deleteJobs_count, filter_every by exact E. reflexivity.
  - rewrite deleteJobs_jobs. apply filter_none. intros job Hin.
    now rewrite E.
Qed.

(** ** Looking records up *)

Lemma getJobById_eq (id : string) (w : World) :
  getJobById id w =
  (List.find (fun job => String.eqb (Job.id job) id) (jobs w), w).
Proof. reflexivity. Qed.

Lemma find_findIndex (id : string) (l : list Job.t) :
  List.find (fun job => String.eqb (Job.id job) id) l =
  match findIndex id l with
  | Some index => l !! index
  | None => None
  end.
Proof.
  unfold findIndex. induction l as [|job l IH]; [reflexivity|].
  cbn [List.find list_find]. 
  destruct (String.eqb_spec (Job.id job) id) as [E|E].
  - rewrite decide_True by assumption. reflexivity.
  - rewrite decide_False by assumption. rewrite IH.
    destruct (list_find _ l) as [[i x]|]; reflexivity.
Qed.

Lemma getJobById_None (id : string) (w : World) :
  (getJobById id w).1 = None <-> id ∉ ids (jobs w).
Proof.
  rewrite getJobById_eq. simpl. rewrite find_findIndex.
  destruct (findIndex id (jobs w)) as [index|] eqn:E.
  - pose proof E as E'.
    apply findIndex_Some in E as (first & Hl & Hid & _). rewrite Hl.
    split; [discriminate|]. intros H%findIndex_None. congruence.
  - split; [intros _; now apply findIndex_None | reflexivity].
Qed.

Lemma find_filter_other (id other : string) (l : list Job.t) :
  other <> id ->
  List.find (fun job => String.eqb (Job.id job) other)
    (List.filter (fun job => negb (String.eqb (Job.id job) id)) l) =
  List.find (fun job => String.eqb (Job.id job) other) l.
Proof.
  intros Hne. induction l as [|job l IH]; [reflexivity|]. simpl.
  destruct (String.eqb_spec (Job.id job) id) as [E|E]; simpl.
  - rewrite IH. destruct (String.eqb_spec (Job.id job) other); congruence.
  - now rewrite IH.
Qed.

Lemma deleteJob_jobs (id : string) (w : World) :
  jobs (deleteJob id w).2 =
  List.filter (fun job => negb (String.eqb (Job.id job) id)) (jobs w).
Proof.
  rewrite deleteJob_eq. cbv zeta.
  destruct (_ <? _)%nat eqn:E; [reflexivity|].
  simpl. now rewrite (filter_keeps_all _ _ E).
Qed.

(** X7. [getJobById] returns the first record of the catalog that has the
    id, the one that [updateJob] would change, and nothing exactly when no
    record has the id; it leaves the state as it is. *)
Theorem getJobById_first (id : string) (w : World) :
  (getJobById id w).2 = w
  /\ (forall job,
        (getJobById id w).1 = Some job <->
        exists index,
          jobs w !! index = Some job /\ Job.id job = id
          /\ forall j other, jobs w !! j = Some other -> (j < index)%nat ->
                             Job.id other <> id)
  /\ ((getJobById id w).1 = None <-> id ∉ ids (jobs w)).
Proof.
  rewrite getJobById_eq. simpl. rewrite find_findIndex.
  split_and!; [reflexivity| |].
  - intros job. destruct (findIndex id (jobs w)) as [index|] eqn:E.
    + apply findIndex_Some in E as (first & Hl & Hid & Hmin).
      rewrite Hl. split.
      * intros [= <-]. now exists index.
      * intros (i & Hi & Hidi & Hmini).
        destruct (Nat.lt_trichotomy i index) as [Hlt|[->|Hgt]].
        -- now destruct (Hmin i job Hi Hlt).
        -- congruence.
        -- now destruct (Hmini index first Hl Hgt).
    + split; [discriminate|]. intros (i & Hi & Hidi & _).
      apply findIndex_None in E. destruct E. apply elem_of_ids.
      exists job. split; [|assumption].
      apply list_elem_of_In, list_elem_of_lookup. now exists i.
  - rewrite <- find_findIndex. apply (getJobById_None id w).
Qed.

Section Lookup.

Variable host : Host.

(** X8. The record that [addJob] returns carries each of the fourteen
    given fields as given, the id made from the first clock reading of the
    call and its random draw, the stamps of the second and of the third
    reading as [created_at] and [updated_at], and the provenance [admin].
    It is the one that [getJobById] finds under its id afterwards, also
    when another record has that id: the new record is put in front.  The
    records that were there follow it, unchanged, and the collection is
    persisted. *)
Theorem addJob_then_getJobById (jobData : JobData.t) (w : World) :
  let r := addJob host jobData w in
  r.1 = {|
    Job.id := idAt host w 0;
    Job.title := JobData.title jobData;
    Job.company := JobData.company jobData;
    Job.location := JobData.location jobData;
    Job.type := JobData.type jobData;
    Job.experience := JobData.experience jobData;
    Job.salary := JobData.salary jobData;
    Job.description := JobData.description jobData;
    Job.requirements := JobData.requirements jobData;
    Job.posted := JobData.posted jobData;
    Job.url := JobData.url jobData;
    Job.logo := JobData.logo jobData;
    Job.remote := JobData.remote jobData;
    Job.skills := JobData.skills jobData;
    Job.application_link := JobData.application_link jobData;
    Job.created_at := toISOString host (clock host (clock_reads w + 1)%nat);
    Job.updated_at := toISOString host (clock host (clock_reads w + 2)%nat);
    Job.source := admin
  |}
  /\ (getJobById (Job.id r.1) r.2).1 = Some r.1
  /\ jobs r.2 = r.1 :: jobs w
  /\ in_sync r.2.
Proof.
  cbv zeta. split.
  - unfold addJob, generateId, now_iso, Date_now, Math_random_suffix,
      saveToStorage, get_jobs, set_jobs, setItem, bind, ret, idAt. simpl.
    rewrite !Nat.add_0_r, Nat.add_1_r, (Nat.add_comm (clock_reads w) 2).
    reflexivity.
  - destruct (addJob_eq host jobData w) as (newJob & _ & _ & E).
    rewrite E. simpl. rewrite String.eqb_refl.
    split_and!; try reflexivity.
    unfold in_sync. simpl. apply lookup_insert_eq.
Qed.

(** X9. After [deleteJob], [getJobById] finds nothing under the id, and
    what it finds under any other id is what it found before. *)
Theorem deleteJob_then_getJobById (id other : string) (w : World) :
  (getJobById id (deleteJob id w).2).1 = None
  /\ (other <> id ->
      (getJobById other (deleteJob id w).2).1 = (getJobById other w).1).
Proof.
  split.
  - apply getJobById_None. rewrite deleteJob_jobs. apply filter_other_ids.
  - intros Hne. rewrite !getJobById_eq. simpl. rewrite deleteJob_jobs.
    now apply find_filter_other.
Qed.

(** X10. After an [updateJob] that finds the id and does not name the key
    [id], the ids of the catalog are what they were and [getJobById] finds
    the updated record under the id. *)
Theorem updateJob_then_getJobById (id : string) (updates : Partial.t)
    (w : World) :
  id ∈ ids (jobs w) ->
  Partial.id updates = None ->
  let r := updateJob host id updates w in
  ids (jobs r.2) = ids (jobs w)
  /\ is_Some r.1
  /\ (getJobById id r.2).1 = r.1.
Proof.
  intros Hin Hid. cbv zeta.
  destruct (findIndex_of_id id (jobs w) Hin) as (index & job & Hi & Hj & Hjid).
  rewrite (updateJob_found host id updates w index job Hi Hj). cbv zeta.
  simpl. set (updated := merge job updates (stampAt host w)).
  assert (Hu : Job.id updated = id).
  { unfold updated. simpl. now rewrite Hid. }
  split_and!.
  - unfold ids. rewrite list_fmap_insert. apply list_insert_id.
    rewrite list_lookup_fmap, Hj, Hu. simpl. now rewrite Hjid.
  - now eexists.
  - rewrite find_findIndex.
    assert (Hf : findIndex id (<[index:=updated]> (jobs w)) = Some index).
    { apply findIndex_Some. exists updated. split_and!.
      - apply list_lookup_insert_eq. now apply lookup_lt_Some in Hj.
      - exact Hu.
      - intros j other Hl Hlt. rewrite list_lookup_insert_ne in Hl by lia.
        apply findIndex_Some in Hi as (first & _ & _ & Hmin).
        now apply (Hmin j). }
    rewrite Hf. apply list_lookup_insert_eq. now apply lookup_lt_Some in Hj.
Qed.

End Lookup.

Lemma deleteJob_then_getJobById_witness :
  (getJobById "job_1" (deleteJob "42" Sample.catalog).2).1 =
  (getJobById "job_1" Sample.catalog).1.
Proof.
  apply (deleteJob_then_getJobById "42" "job_1" Sample.catalog).
  discriminate.
Defined.

Lemma updateJob_then_getJobById_witness :
  (getJobById "job_1"
     (updateJob SampleHost.host "job_1" Sample.retitle Sample.catalog).2).1 =
  (updateJob SampleHost.host "job_1" Sample.retitle Sample.catalog).1.
Proof.
  apply (updateJob_then_getJobById SampleHost.host "job_1" Sample.retitle
           Sample.catalog); [compute_done | reflexivity].
Defined.

(** ** Statistics *)

Lemma Set_size_le (l : list string) : (Set_size l <= length l)%nat.
Proof.
  unfold Set_size. induction l as [|x l IH].
  - now rewrite list_to_set_nil, size_empty.
  - rewrite list_to_set_cons. cbn [length]. destruct (decide (x ∈ (list_to_set l : gset string))) as [Hin|Hout].
    + assert (E : {[x]} ∪ list_to_set l = (list_to_set l : gset string)).
      { apply set_eq. intros y. rewrite elem_of_union, elem_of_singleton.
        split; [intros [->|]; assumption | now right]. }
      rewrite E. lia.
    + rewrite size_union, size_singleton; [lia|].
      intros y Hy%elem_of_singleton. now subst.
Qed.

Lemma Set_size_zero (l : list string) : Set_size l = 0%nat <-> l = [].
Proof.
  unfold Set_size. split.
  - intros H%size_empty_inv. destruct l as [|x l]; [reflexivity|].
    exfalso. apply (not_elem_of_empty (C := gset string) x).
    rewrite <- H. apply elem_of_list_to_set. left.
  - intros ->. rewrite list_to_set_nil. apply size_empty.
Qed.

(** [new Set(l).size] counts the distinct entries of [l]. *)
Lemma Set_size_distinct (l : list string) :
  Set_size l = length (remove_dups l).
Proof.
  unfold Set_size. rewrite <- (size_list_to_set (C := gset string)).
  - f_equal. apply set_eq. intros x.
    now rewrite !elem_of_list_to_set, elem_of_remove_dups.
  - apply NoDup_remove_dups.
Qed.

Lemma source_partition (l : list Job.t) :
  (length (List.filter is_api l) + length (List.filter is_admin l))%nat
  = length l.
Proof.
  induction l as [|job l IH]; [reflexivity|]. simpl.
  unfold is_api at 1, is_admin at 1.
  destruct (Job.source job); simpl; lia.
Qed.

(** X11. The numbers of [getJobStats] fit together: the records of the two
    provenances add up to the total, and the remote records, the distinct
    companies and the distinct locations are each at most the total; the
    number of companies is that of the distinct company names, and it is
    zero only for an empty catalog.  The call changes nothing. *)
Theorem getJobStats_consistent (w : World) :
  let s := (getJobStats w).1 in
  (getJobStats w).2 = w
  /\ Stats.total s = length (jobs w)
  /\ (Stats.apiJobs s + Stats.adminJobs s)%nat = Stats.total s
  /\ (Stats.remoteJobs s <= Stats.total s)%nat
  /\ (Stats.companies s <= Stats.total s)%nat
  /\ (Stats.locations s <= Stats.total s)%nat
  /\ Stats.companies s = length (remove_dups (List.map Job.company (jobs w)))
  /\ Stats.locations s = length (remove_dups (List.map Job.location (jobs w)))
  /\ (Stats.companies s = 0%nat <-> Stats.total s = 0%nat).
Proof.
  cbv zeta. unfold getJobStats, bind, get_jobs, ret. simpl.
  split_and!; try reflexivity.
  - apply source_partition.
  - apply List.filter_length_le.
  - pose proof (Set_size_le (List.map Job.company (jobs w))) as H.
    now rewrite length_map in H.
  - pose proof (Set_size_le (List.map Job.location (jobs w))) as H.
    now rewrite length_map in H.
  - apply Set_size_distinct.
  - apply Set_size_distinct.
  - rewrite Set_size_zero. destruct (jobs w); simpl; split; congruence.
Qed.

Section StatsAfter.

Variable host : Host.

(** X12. After [syncJobsFromAPI] the statistics count one external record
    per payload and as many local records as before. *)
Theorem getJobStats_after_sync (apiJobs : list ApiJob.t) (w : World) :
  let before := (getJobStats w).1 in
  let after := (getJobStats (syncJobsFromAPI host apiJobs w).2).1 in
  Stats.apiJobs after = length apiJobs
  /\ Stats.adminJobs after = Stats.adminJobs before
  /\ Stats.total after = (Stats.adminJobs before + length apiJobs)%nat.
Proof.
  cbv zeta. unfold getJobStats, bind, get_jobs, ret. simpl.
  rewrite syncJobsFromAPI_eq. cbv zeta. simpl.
  destruct (normalizeFrom_frame host apiJobs 0 w)
    as (_ & _ & _ & Hlen & Hsrc & _).
  fold (normalizeAPIJobs host apiJobs w) in Hlen, Hsrc.
  destruct (filter_of_api _ Hsrc) as [Hadm Hapi].
  change (fun job => Source_eqb (Job.source job) api) with is_api.
  change (fun job => Source_eqb (Job.source job) admin) with is_admin.
  rewrite !List.filter_app, Hadm, Hapi, filter_idem, filter_is_api_of_admin.
  rewrite app_nil_r, !length_app, Hlen. now split_and!.
Qed.

(** X13. After [addJob] the statistics count one more record and one more
    local record; the external records are as many as before. *)
Theorem getJobStats_after_add (jobData : JobData.t) (w : World) :
  let before := (getJobStats w).1 in
  let after := (getJobStats (addJob host jobData w).2).1 in
  Stats.total after = S (Stats.total before)
  /\ Stats.adminJobs after = S (Stats.adminJobs before)
  /\ Stats.apiJobs after = Stats.apiJobs before
  /\ Stats.remoteJobs after =
     ((if JobData.remote jobData then 1 else 0) + Stats.remoteJobs before)%nat.
Proof.
  cbv zeta. destruct (addJob_eq host jobData w) as (newJob & _ & Hsrc & E).
  pose proof (f_equal fst E) as E1. simpl in E1.
  assert (Hrem : Job.remote newJob = JobData.remote jobData).
  { rewrite <- E1. reflexivity. }
  rewrite E. unfold getJobStats, bind, get_jobs, ret. simpl.
  rewrite Hsrc, Hrem. simpl.
  split_and!; try reflexivity. now destruct (JobData.remote jobData).
Qed.

End StatsAfter.

(** ** What a sequence of calls keeps *)

Lemma keys_differ : STORAGE_KEY <> ADMIN_SESSION_KEY.
Proof. discriminate. Qed.

Section Keeps.

Variable host : Host.

(** A call either leaves the collection and what is stored of it as they
    are, or persists the collection it leaves; it writes to the session
    flag only if it is a session call, and then it leaves the collection
    alone. *)
Lemma call_effect (c : Call) (w : World) :
  let w' := (call host c w).2 in
  ((jobs w' = jobs w
    /\ localStorage w' !! STORAGE_KEY = localStorage w !! STORAGE_KEY)
   \/ in_sync w')
  /\ (is_session_call c = false ->
      localStorage w' !! ADMIN_SESSION_KEY =
      localStorage w !! ADMIN_SESSION_KEY)
  /\ (is_session_call c = true ->
      jobs w' = jobs w
      /\ localStorage w' !! STORAGE_KEY = localStorage w !! STORAGE_KEY).
Proof.
  cbv zeta. pose proof keys_differ as Hk.
  destruct c as [jobData|id updates|id|l| |apiJobs|query filters forceAPI
                 outcome|passcode|]; unfold call, bind, ret.
  - destruct (addJob_eq host jobData w) as (newJob & _ & _ & ->). simpl.
    split_and!; [right; apply lookup_insert_eq | | discriminate].
    intros _. now apply lookup_insert_ne.
  - destruct (decide (id ∈ ids (jobs w))) as [Hin|Hout].
    + destruct (findIndex_of_id id (jobs w) Hin)
        as (index & job & Hi & Hj & _).
      rewrite (updateJob_found host id updates w index job Hi Hj).
      cbv zeta. simpl.
      split_and!; [right; apply lookup_insert_eq | | discriminate].
      intros _. now apply lookup_insert_ne.
    + rewrite (updateJob_absent host id updates w Hout). simpl.
      split_and!; [now left | reflexivity | discriminate].
  - rewrite deleteJob_eq. cbv zeta. destruct (_ <? _)%nat; simpl.
    + split_and!; [right; apply lookup_insert_eq | | discriminate].
      intros _. now apply lookup_insert_ne.
    + split_and!; [now left | reflexivity | discriminate].
  - rewrite deleteJobs_eq. cbv zeta. destruct (_ <? _)%nat; simpl.
    + split_and!; [right; apply lookup_insert_eq | | discriminate].
      intros _. now apply lookup_insert_ne.
    + split_and!; [now left | reflexivity | discriminate].
  - unfold deleteAllJobs, bind, get_jobs, set_jobs, saveToStorage, setItem,
      ret. simpl.
    split_and!; [right; apply lookup_insert_eq | | discriminate].
    intros _. now apply lookup_insert_ne.
  - rewrite syncJobsFromAPI_eq. cbv zeta. simpl.
    split_and!; [right; apply lookup_insert_eq | | discriminate].
    intros _. now apply lookup_insert_ne.
  - unfold searchJobs.
    destruct forceAPI; simpl;
      [destruct outcome as [|[|] [data|]]|]; unfold bind;
      rewrite ?syncJobsFromAPI_eq; cbv zeta; rewrite ?getFilteredJobs_eq;
      simpl;
      try (split_and!; [now left | reflexivity | discriminate]).
    split_and!; [right; apply lookup_insert_eq | | discriminate].
    intros _. now apply lookup_insert_ne.
  - unfold authenticateAdmin.
    destruct (String.eqb passcode ADMIN_PASSCODE); simpl.
    + split_and!; [left; split; [reflexivity|] | discriminate |].
      * now apply lookup_insert_ne.
      * intros _. split; [reflexivity|]. now apply lookup_insert_ne.
    + split_and!; [now left | discriminate | now split].
  - simpl. split_and!; [left; split; [reflexivity|] | discriminate |].
    + now apply lookup_delete_ne.
    + intros _. split; [reflexivity|]. now apply lookup_delete_ne.
Qed.

Lemma calls_cons (c : Call) (l : list Call) (w : World) :
  (calls host (c :: l) w).2 = (calls host l (call host c w).2).2.
Proof.
  simpl. unfold bind. now destruct (call host c w).
Qed.

(** X15. The calls that change the catalog never write the session flag,
    and authenticating or logging out never changes the catalog: after a
    sequence of calls without session calls [isAdminAuthenticated] answers
    as before, and after a sequence of session calls the catalog is as
    before. *)
Theorem calls_separate_session (l : list Call) (w : World) :
  (forallb (fun c => negb (is_session_call c)) l = true ->
   (isAdminAuthenticated (calls host l w).2).1 = (isAdminAuthenticated w).1)
  /\ (forallb is_session_call l = true ->
      jobs (calls host l w).2 = jobs w
      /\ localStorage (calls host l w).2 !! STORAGE_KEY =
         localStorage w !! STORAGE_KEY).
Proof.
  split.
  - revert w. induction l as [|c l IH]; intros w H; [reflexivity|].
    simpl in H. apply andb_true_iff in H as [Hc Hl].
    rewrite calls_cons, (IH _ Hl).
    destruct (call_effect c w) as (_ & Hs & _).
    unfold isAdminAuthenticated, bind, getItem, ret. simpl.
    rewrite Hs; [reflexivity|]. now destruct (is_session_call c).
  - revert w. induction l as [|c l IH]; intros w H; [now split|].
    simpl in H. apply andb_true_iff in H as [Hc Hl].
    rewrite calls_cons. destruct (IH (call host c w).2 Hl) as [-> ->].
    destruct (call_effect c w) as (_ & _ & Hs). now apply Hs.
Qed.

End Keeps.

Lemma calls_separate_session_witness :
  (isAdminAuthenticated
     (calls SampleHost.host [CallAdd Sample.reactJob; CallDeleteAll]
        Sample.catalog).2).1 = (isAdminAuthenticated Sample.catalog).1
  /\ jobs (calls SampleHost.host
             [CallAuthenticate "723899"; CallLogout] Sample.catalog).2 =
     jobs Sample.catalog.
Proof.
  split.
  - now apply (calls_separate_session SampleHost.host).
  - now apply (calls_separate_session SampleHost.host
                 [CallAuthenticate "723899"; CallLogout] Sample.catalog).
Defined.

(** ** Where the stamps come from *)

Section Stamps.

Variable host : Host.

Lemma stamped_before_le (k k' : nat) (l : list Job.t) :
  (k <= k')%nat -> stamped_before host k l -> stamped_before host k' l.
Proof.
  intros Hk H. eapply Forall_impl; [exact H|]. intros job (n & Hn & E).
  exists n. split; [lia | exact E].
Qed.

Lemma stamped_before_filter (f : Job.t -> bool) (k : nat) (l : list Job.t) :
  stamped_before host k l -> stamped_before host k (List.filter f l).
Proof.
  induction 1 as [|job l Hjob _ IH]; simpl; [constructor|].
  destruct (f job); [now constructor | exact IH].
Qed.

Lemma normalizeAPIJob_stamp (job : ApiJob.t) (index : nat) (w : World) :
  let r := normalizeAPIJob host job index w in
  (clock_reads w <= clock_reads r.2)%nat
  /\ stamped_before host (clock_reads r.2) [r.1].
Proof.
  unfold normalizeAPIJob, formatDate, now_iso, Date_now, bind, ret,
    stamped_before.
  destruct (Str.truthy (ApiJob.id job)), (Str.truthy (ApiJob.created_at job));
    simpl; (split; [lia|]); repeat constructor; eexists;
    (split; [|reflexivity]); lia.
Qed.

Lemma normalizeFrom_stamp (apiJobs : list ApiJob.t) (index : nat)
    (w : World) :
  let r := normalizeFrom host index apiJobs w in
  (clock_reads w <= clock_reads r.2)%nat
  /\ stamped_before host (clock_reads r.2) r.1.
Proof.
  revert index w. induction apiJobs as [|job rest IH]; intros index w.
  - simpl. split; [lia | constructor].
  - rewrite normalizeFrom_cons. cbv zeta. simpl.
    destruct (normalizeAPIJob_stamp job index w) as [H1 H2].
    destruct (IH (S index) (normalizeAPIJob host job index w).2) as [H3 H4].
    split; [lia|]. constructor; [|exact H4].
    apply Forall_inv in H2. destruct H2 as (n & Hn & E).
    exists n. split; [lia | exact E].
Qed.

(** Every call stamps the records that it makes or changes at a reading
    of the clock, and leaves the stamps of the others. *)
Lemma call_keeps_stamped (c : Call) (w : World) :
  stamped host w -> stamped host (call host c w).2.
Proof.
  unfold stamped. intros H.
  destruct c as [jobData|id updates|id|l| |apiJobs|query filters forceAPI
                 outcome|passcode|]; unfold call, bind, ret.
  - destruct (addJob_eq host jobData w) as (newJob & _ & _ & E).
    pose proof (f_equal fst E) as E1. rewrite E. simpl in *.
    constructor.
    + exists (clock_reads w + 2)%nat. split; [lia|]. rewrite <- E1.
      unfold addJob, generateId, now_iso, Date_now, Math_random_suffix,
        bind, ret. simpl.
      now rewrite (Nat.add_comm (clock_reads w) 2).
    + apply (stamped_before_le (clock_reads w)); [lia | exact H].
  - destruct (decide (id ∈ ids (jobs w))) as [Hin|Hout].
    + destruct (findIndex_of_id id (jobs w) Hin)
        as (index & job & Hi & Hj & _).
      rewrite (updateJob_found host id updates w index job Hi Hj).
      cbv zeta. simpl. apply Forall_insert.
      * apply (stamped_before_le (clock_reads w)); [lia | exact H].
      * exists (clock_reads w). split; [lia | reflexivity].
    + now rewrite (updateJob_absent host id updates w Hout).
  - rewrite deleteJob_eq. cbv zeta. destruct (_ <? _)%nat; simpl; [|exact H].
    now apply stamped_before_filter.
  - rewrite deleteJobs_eq. cbv zeta. destruct (_ <? _)%nat; simpl; [|exact H].
    now apply stamped_before_filter.
  - simpl. constructor.
  - rewrite syncJobsFromAPI_eq. cbv zeta. simpl.
    destruct (normalizeFrom_stamp apiJobs 0 w) as [H1 H2].
    apply Forall_app. split; [|exact H2].
    apply (stamped_before_le (clock_reads w)); [exact H1|].
    now apply stamped_before_filter.
  - unfold searchJobs.
    destruct forceAPI; cbn [negb];
      [destruct outcome as [|[|] [data|]]|]; unfold bind;
      rewrite ?syncJobsFromAPI_eq; cbv zeta; rewrite ?getFilteredJobs_eq;
      simpl; try exact H.
    destruct (normalizeFrom_stamp (apiJobs_of data) 0 w) as [H1 H2].
    apply Forall_app. split; [|exact H2].
    apply (stamped_before_le (clock_reads w)); [exact H1|].
    now apply stamped_before_filter.
  - unfold authenticateAdmin.
    destruct (String.eqb passcode ADMIN_PASSCODE); exact H.
  - exact H.
Qed.

Lemma calls_keep_stamped (l : list Call) (w : World) :
  stamped host w -> stamped host (calls host l w).2.
Proof.
  revert w. induction l as [|c l IH]; intros w H; [exact H|].
  rewrite calls_cons. apply IH. now apply call_keeps_stamped.
Qed.

(** In a state reached by calls of the store from one whose records are
    stamped, an update puts a stamp that is not the earlier of the two
    when the clock does not go back. *)
Lemma updateJob_after_calls_stamp (l : list Call) (w : World) (id : string)
    (updates : Partial.t) (index : nat) (job : Job.t) :
  stamped host w ->
  (forall i j, (i <= j)%nat -> clock host i <= clock host j) ->
  let v := (calls host l w).2 in
  findIndex id (jobs v) = Some index ->
  jobs v !! index = Some job ->
  exists updated t0 t,
    (updateJob host id updates v).1 = Some updated
    /\ Job.updated_at job = toISOString host t0
    /\ Job.updated_at updated = toISOString host t
    /\ t0 <= t.
Proof.
  intros Hw Hmono v Hi Hj.
  pose proof (calls_keep_stamped l w Hw) as Hv. fold v in Hv.
  unfold stamped, stamped_before in Hv. rewrite Forall_lookup in Hv.
  destruct (Hv index job Hj) as (n & Hn & E).
  rewrite (updateJob_found host id updates v index job Hi Hj). cbv zeta.
  eexists _, (clock host n), (clock host (clock_reads v)).
  split_and!; [reflexivity | exact E | reflexivity |].
  apply Hmono. lia.
Qed.

End Stamps.

(** A record added on a new page and then renamed. *)
Example updateJob_after_addJob_stamp :
  let v := (calls SampleHost.host [CallAdd Sample.reactJob]
              SampleHost.fresh).2 in
  exists job updated t0 t,
    jobs v !! 0%nat = Some job
    /\ (updateJob SampleHost.host (Job.id job) Sample.retitle v).1 =
       Some updated
    /\ Job.updated_at job = SampleHost.toISOString t0
    /\ Job.updated_at updated = SampleHost.toISOString t
    /\ t0 <= t.
Proof.
  cbv zeta.
  set (job := (addJob SampleHost.host Sample.reactJob SampleHost.fresh).1).
  destruct (updateJob_after_calls_stamp SampleHost.host
              [CallAdd Sample.reactJob] SampleHost.fresh (Job.id job)
              Sample.retitle 0 job) as (updated & t0 & t & H);
    [constructor | | reflexivity | reflexivity |].
  - intros i j Hij. unfold SampleHost.host, SampleHost.clock. simpl. lia.
  - exists job, updated, t0, t. split; [reflexivity | exact H].
Qed.

(** ** Unique ids *)

Lemma ids_filter_sublist (f : Job.t -> bool) (l : list Job.t) :
  sublist (ids (List.filter f l)) (ids l).
Proof.
  unfold ids. induction l as [|job l IH]; simpl; [constructor|].
  destruct (f job); simpl; now constructor.
Qed.

Lemma count_id_unique (id : string) (l : list Job.t) :
  NoDup (ids l) -> id ∈ ids l -> count_id id l = 1%nat.
Proof.
  unfold count_id, ids. induction l as [|job l IH]; simpl; intros Hnd Hin.
  - now apply elem_of_nil in Hin.
  - apply NoDup_cons in Hnd as [Hout Hnd].
    destruct (String.eqb_spec (Job.id job) id) as [E|E]; simpl.
    + f_equal. rewrite filter_none; [reflexivity|].
      intros other Hother. apply String.eqb_neq. intros E'.
      apply Hout. rewrite E, <- E'. apply list_elem_of_fmap.
      exists other. split; [reflexivity | now apply list_elem_of_In].
    + apply IH; [assumption|].
      apply elem_of_cons in Hin as [Hin|Hin]; [congruence | assumption].
Qed.

Section Unique.

Variable host : Host.

(** X16. The deleting calls keep the ids of the catalog unique, and so
    does [updateJob] when the key [id] is not given; in a catalog of unique
    ids, [deleteJob] of an id that is there removes exactly one record. *)
Theorem unique_ids_kept (w : World) :
  NoDup (ids (jobs w)) ->
  (forall id, NoDup (ids (jobs (deleteJob id w).2)))
  /\ (forall l, NoDup (ids (jobs (deleteJobs l w).2)))
  /\ NoDup (ids (jobs (deleteAllJobs w).2))
  /\ (forall id updates,
        Partial.id updates = None ->
        NoDup (ids (jobs (updateJob host id updates w).2)))
  /\ (forall id,
        id ∈ ids (jobs w) ->
        length (jobs w) = S (length (jobs (deleteJob id w).2))).
Proof.
  intros Hnd. split_and!.
  - intros id. rewrite deleteJob_jobs.
    eapply sublist_NoDup; [exact Hnd | apply ids_filter_sublist].
  - intros l. rewrite deleteJobs_jobs.
    eapply sublist_NoDup; [exact Hnd | apply ids_filter_sublist].
  - apply NoDup_nil_2.
  - intros id updates Hid.
    destruct (decide (id ∈ ids (jobs w))) as [Hin|Hout].
    + destruct (findIndex_of_id id (jobs w) Hin)
        as (index & job & Hi & Hj & Hjid).
      rewrite (updateJob_found host id updates w index job Hi Hj).
      cbv zeta. simpl.
      replace (ids (<[index:=merge job updates (stampAt host w)]> (jobs w)))
        with (ids (jobs w)); [exact Hnd|].
      unfold ids. rewrite list_fmap_insert. symmetry. apply list_insert_id.
      rewrite list_lookup_fmap, Hj. simpl. now rewrite Hid.
    + now rewrite (updateJob_absent host id updates w Hout).
  - intros id Hin. rewrite deleteJob_jobs.
    rewrite (count_id_length id (jobs w)) at 1.
    rewrite (count_id_unique id (jobs w) Hnd Hin). lia.
Qed.

End Unique.

Lemma unique_ids_kept_witness :
  NoDup (ids (jobs (updateJob SampleHost.host "job_1" Sample.retitle
                      Sample.catalog).2))
  /\ length (jobs Sample.catalog) =
     S (length (jobs (deleteJob "42" Sample.catalog).2)).
Proof.
  assert (Hnd : NoDup (ids (jobs Sample.catalog))) by compute_done.
  destruct (unique_ids_kept SampleHost.host Sample.catalog Hnd)
    as (_ & _ & _ & Hu & Hd).
  split; [now apply Hu | apply Hd; compute_done].
Defined.

(** ** The store does not read the storage *)

Section Memory.

Variable host : Host.

Lemma normalizeAPIJob_memory (job : ApiJob.t) (index : nat) (w1 w2 : World) :
  same_memory w1 w2 ->
  (normalizeAPIJob host job index w1).1 = (normalizeAPIJob host job index w2).1
  /\ same_memory (normalizeAPIJob host job index w1).2
                 (normalizeAPIJob host job index w2).2.
Proof.
  intros (Hj & Hc & Hr).
  unfold normalizeAPIJob, formatDate, now_iso, Date_now, bind, ret,
    same_memory.
  destruct (Str.truthy (ApiJob.id job)), (Str.truthy (ApiJob.created_at job));
    simpl; rewrite Hj, Hc, Hr; repeat split.
Qed.

Lemma normalizeFrom_memory (apiJobs : list ApiJob.t) (index : nat)
    (w1 w2 : World) :
  same_memory w1 w2 ->
  (normalizeFrom host index apiJobs w1).1 =
  (normalizeFrom host index apiJobs w2).1
  /\ same_memory (normalizeFrom host index apiJobs w1).2
                 (normalizeFrom host index apiJobs w2).2.
Proof.
  revert index w1 w2. induction apiJobs as [|job rest IH];
    intros index w1 w2 H; [now split|].
  rewrite !normalizeFrom_cons. cbv zeta. simpl.
  destruct (normalizeAPIJob_memory job index w1 w2 H) as [E1 H1].
  destruct (IH (S index) _ _ H1) as [E2 H2].
  now rewrite E1, E2.
Qed.

Lemma call_memory (c : Call) (w1 w2 : World) :
  same_memory w1 w2 ->
  same_memory (call host c w1).2 (call host c w2).2.
Proof.
  intros H. pose proof H as (Hj & Hc & Hr).
  destruct c as [jobData|id updates|id|l| |apiJobs|query filters forceAPI
                 outcome|passcode|]; unfold call, bind, ret.
  - unfold addJob, generateId, now_iso, Date_now, Math_random_suffix,
      saveToStorage, get_jobs, set_jobs, setItem, bind, ret, same_memory.
    simpl. rewrite Hj, Hc, Hr. repeat split.
  - unfold updateJob, bind, get_jobs. rewrite Hj.
    destruct (findIndex id (jobs w2)) as [index|]; [|exact H].
    destruct (jobs w2 !! index) as [job|]; [|exact H].
    unfold now_iso, Date_now, saveToStorage, get_jobs, set_jobs, setItem,
      bind, ret, same_memory. simpl. rewrite Hc, Hr. repeat split.
  - rewrite !deleteJob_eq. cbv zeta. rewrite Hj.
    destruct (_ <? _)%nat; [|exact H]. now split_and!.
  - rewrite !deleteJobs_eq. cbv zeta. rewrite Hj.
    destruct (_ <? _)%nat; [|exact H]. now split_and!.
  - unfold deleteAllJobs, bind, get_jobs, set_jobs, saveToStorage, setItem,
      ret. simpl. now split_and!.
  - rewrite !syncJobsFromAPI_eq. cbv zeta. simpl.
    destruct (normalizeFrom_memory apiJobs 0 w1 w2 H) as [E (_ & E2 & _)].
    unfold normalizeAPIJobs. rewrite E, Hj. now split_and!.
  - unfold searchJobs.
    destruct forceAPI; simpl;
      [destruct outcome as [|[|] [data|]]|]; unfold bind;
      rewrite ?syncJobsFromAPI_eq; cbv zeta; rewrite ?getFilteredJobs_eq;
      simpl; try exact H.
    destruct (normalizeFrom_memory (apiJobs_of data) 0 w1 w2 H)
      as [E (_ & E2 & _)].
    unfold normalizeAPIJobs. rewrite E, Hj. now split_and!.
  - unfold authenticateAdmin.
    destruct (String.eqb passcode ADMIN_PASSCODE); simpl; exact H.
  - exact H.
Qed.

(** X17. What a sequence of calls does to the collection in memory does
    not depend on what [localStorage] holds: from two states that hold the
    same collection the same calls lead to the same collection.  In
    particular the adding, updating, deleting and synchronizing calls do
    the same whether or not the session flag is set. *)
Theorem calls_ignore_storage (l : list Call) (w1 w2 : World) :
  same_memory w1 w2 ->
  jobs (calls host l w1).2 = jobs (calls host l w2).2
  /\ same_memory (calls host l w1).2 (calls host l w2).2.
Proof.
  intros H.
  assert (G : same_memory (calls host l w1).2 (calls host l w2).2).
  { revert w1 w2 H. induction l as [|c l IH]; intros w1 w2 H; [exact H|].
    rewrite !calls_cons. apply IH. now apply call_memory. }
  split; [apply G | exact G].
Qed.

End Memory.

Lemma calls_ignore_storage_witness :
  jobs (calls SampleHost.host
          [CallAdd Sample.reactJob; CallUpdate "42" Sample.retitle]
          (logoutAdmin Sample.catalog).2).2 =
  jobs (calls SampleHost.host
          [CallAdd Sample.reactJob; CallUpdate "42" Sample.retitle]
          (authenticateAdmin ADMIN_PASSCODE Sample.catalog).2).2.
Proof.
  apply (calls_ignore_storage SampleHost.host). now split_and!.
Defined.

(** ** What a refused write leaves *)

Section Refused.

Variable host : Host.
Variable JSON_parse : string -> option (list Job.t).

(** On a storage that accepts the write, a call is the call of the service
    of section [Service]. *)
Lemma call_accepted (c : Call) (w : World) :
  Fallible.call host true c w = call host c w.
Proof.
  destruct c as [jobData|id updates|id|l| |apiJobs|query filters forceAPI
                 outcome|passcode|]; try reflexivity.
  unfold Fallible.call, call, Fallible.authenticateAdmin, authenticateAdmin,
    bind.
  destruct (String.eqb passcode ADMIN_PASSCODE); reflexivity.
Qed.

(** A call whose write is refused leaves in memory what the call leaves
    when the write is accepted, and in [localStorage] what was there,
    but for [logoutAdmin], which does not write. *)
Lemma call_refused (c : Call) (w : World) :
  (Fallible.call host false c w).2 =
  match c with
  | CallLogout => (call host c w).2
  | _ => with_storage_of w (call host c w).2
  end.
Proof.
  destruct c as [jobData|id updates|id|l| |apiJobs|query filters forceAPI
                 outcome|passcode|]; unfold Fallible.call, call, bind, ret.
  - destruct (addJob_eq host jobData w) as (newJob & _ & _ & E).
    rewrite E. simpl. 
    pose proof (f_equal fst E) as E1. simpl in E1. rewrite <- E1.
    unfold with_storage_of. simpl.
    unfold addJob, Fallible.addJob, generateId, now_iso, Date_now, Math_random_suffix,
      Fallible.saveToStorage, Fallible.setItem_or_throw, saveToStorage, get_jobs, set_jobs, setItem, bind, ret. simpl.
    rewrite (Nat.add_comm (clock_reads w) 3), (Nat.add_comm (random_draws w) 1).
    reflexivity.
  - unfold Fallible.updateJob, updateJob, bind. simpl.
    destruct (findIndex id (jobs w)) as [index|]; [|now destruct w].
    destruct (jobs w !! index); [reflexivity | now destruct w].
  - unfold Fallible.deleteJob, deleteJob, bind. simpl.
    destruct (_ <? _)%nat eqn:E; [reflexivity|].
    simpl. reflexivity.
  - unfold Fallible.deleteJobs, deleteJobs, bind. simpl.
    destruct (_ <? _)%nat; reflexivity.
  - reflexivity.
  - unfold Fallible.syncJobsFromAPI, syncJobsFromAPI, bind.
    pose proof (normalizeFrom_frame host apiJobs 0 w) as H. cbv zeta in H.
    fold (normalizeAPIJobs host apiJobs w) in H.
    destruct (normalizeAPIJobs host apiJobs w) as [ns w1]. simpl in *.
    destruct H as (Hj & Hs & Hd & _).
    unfold with_storage_of. simpl. now rewrite Hs.
  - unfold Fallible.searchJobs, searchJobs, bind.
    destruct forceAPI; cbn [negb];
      [|rewrite getFilteredJobs_eq; now destruct w].
    destruct outcome as [|[|] [data|]];
      try (rewrite getFilteredJobs_eq; now destruct w).
    unfold Fallible.syncJobsFromAPI, syncJobsFromAPI, bind.
    pose proof (normalizeFrom_frame host (apiJobs_of data) 0 w) as H.
    cbv zeta in H. fold (normalizeAPIJobs host (apiJobs_of data) w) in H.
    destruct (normalizeAPIJobs host (apiJobs_of data) w) as [ns w1].
    simpl in H. destruct H as (Hj & Hs & Hd & _).
    unfold Fallible.saveToStorage, Fallible.setItem_or_throw, saveToStorage,
      get_jobs, set_jobs, setItem, bind, ret.
    rewrite !getFilteredJobs_eq. unfold with_storage_of. simpl.
    now rewrite Hs.
  - unfold Fallible.authenticateAdmin, authenticateAdmin, bind.
    destruct (String.eqb passcode ADMIN_PASSCODE); simpl; now destruct w.
  - reflexivity.
Qed.


Lemma fallible_calls_cons (c : Call) (accepted : bool)
    (l : list (Call * bool)) (w : World) :
  (Fallible.calls host ((c, accepted) :: l) w).2 =
  (Fallible.calls host l (Fallible.call host accepted c w).2).2.
Proof.
  simpl. unfold bind. now destruct (Fallible.call host accepted c w).
Qed.

(** Whether or not its write is accepted, a call leaves in memory what it
    leaves in the service of section [Service]. *)
Lemma fallible_call_memory (c : Call) (accepted : bool) (w1 w2 : World) :
  same_memory w1 w2 ->
  same_memory (Fallible.call host accepted c w1).2 (call host c w2).2.
Proof.
  intros H. destruct accepted.
  - rewrite call_accepted. now apply call_memory.
  - rewrite call_refused.
    destruct (call_memory host c w1 w2 H) as (Hj & Hc & Hr).
    destruct c; unfold with_storage_of, same_memory; simpl; auto.
Qed.

Lemma fallible_calls_memory (l : list (Call * bool)) (w1 w2 : World) :
  same_memory w1 w2 ->
  same_memory (Fallible.calls host l w1).2 (calls host l.*1 w2).2.
Proof.
  revert w1 w2. induction l as [|[c accepted] l IH]; intros w1 w2 H;
    [exact H|].
  rewrite fallible_calls_cons. cbn [fmap list_fmap fst].
  rewrite calls_cons. apply IH. now apply fallible_call_memory.
Qed.

(** After a call, what is stored of the collection is the collection that
    the call leaves, or what was stored before; the latter when the write
    is refused. *)
Lemma fallible_call_storage (c : Call) (accepted : bool) (w : World) :
  let w' := (Fallible.call host accepted c w).2 in
  (in_sync w'
   \/ localStorage w' !! STORAGE_KEY = localStorage w !! STORAGE_KEY)
  /\ (accepted = false ->
      localStorage w' !! STORAGE_KEY = localStorage w !! STORAGE_KEY)
  /\ (accepted = true -> in_sync w -> in_sync w').
Proof.
  cbv zeta.
  assert (R : localStorage (Fallible.call host false c w).2 !! STORAGE_KEY =
              localStorage w !! STORAGE_KEY).
  { rewrite call_refused. destruct c; try reflexivity.
    destruct (call_effect host CallLogout w) as (_ & _ & Hs).
    now apply Hs. }
  assert (A : in_sync w -> in_sync (Fallible.call host true c w).2).
  { rewrite call_accepted. intros Hw.
    destruct (call_effect host c w) as ([[Hj Hs]|Hs] & _); [|exact Hs].
    unfold in_sync in *. now rewrite Hs, Hj. }
  destruct accepted.
  - split_and!; [|discriminate | now intros _].
    rewrite call_accepted.
    destruct (call_effect host c w) as ([[_ Hs]|Hs] & _); [now right|now left].
  - split_and!; [now right | now intros _ | discriminate].
Qed.

(** What is stored of the collection after a sequence of calls is what was
    stored before it, or the collection in memory after one of the calls. *)
Lemma fallible_calls_storage (l : list (Call * bool)) (w : World) :
  let r := (Fallible.calls host l w).2 in
  localStorage r !! STORAGE_KEY = localStorage w !! STORAGE_KEY
  \/ exists k, (0 < k <= length l)%nat
       /\ localStorage r !! STORAGE_KEY =
          Some (Json (jobs (Fallible.calls host (take k l) w).2)).
Proof.
  cbv zeta. revert w. induction l as [|[c accepted] l IH]; intros w;
    [now left|].
  rewrite fallible_calls_cons.
  destruct (IH (Fallible.call host accepted c w).2)
    as [E|(k & Hk & E)].
  - destruct (fallible_call_storage c accepted w) as ([Hs|Hs] & _).
    + right. exists 1%nat. split; [simpl; lia|].
      rewrite E. cbn [take]. rewrite fallible_calls_cons. exact Hs.
    + left. now rewrite E.
  - right. exists (S k). split; [simpl; lia|].
    cbn [take]. now rewrite fallible_calls_cons.
Qed.

Lemma newInstance_stored (w : World) (js : list Job.t) :
  localStorage w !! STORAGE_KEY = Some (Json js) ->
  jobs (newInstance JSON_parse w) = js.
Proof.
  unfold newInstance, loadFromStorage, bind, getItem. simpl.
  now intros ->.
Qed.

(** X14. Over any sequence of calls, some of whose writes the storage
    refuses: the collection in memory is the one that the same calls leave
    when every write is accepted; started with the persisted collection
    equal to the one in memory, what a new instance loads afterwards is
    the collection as it was in memory at the start or after one of the
    calls, never anything else; it is the collection as it is in memory
    when every write is accepted, and the collection of the start when
    every write is refused. *)
Theorem calls_persist_accepted_writes (l : list (Call * bool)) (w : World) :
  let r := (Fallible.calls host l w).2 in
  same_memory r (calls host l.*1 w).2
  /\ (forallb snd l = true -> r = (calls host l.*1 w).2)
  /\ (in_sync w ->
      (exists k, (k <= length l)%nat
         /\ localStorage r !! STORAGE_KEY =
            Some (Json (jobs (calls host (take k l.*1) w).2))
         /\ jobs (newInstance JSON_parse r) =
            jobs (calls host (take k l.*1) w).2)
      /\ (forallb snd l = true ->
          in_sync r /\ jobs (newInstance JSON_parse r) = jobs r)
      /\ (forallb (fun p => negb p.2) l = true ->
          localStorage r !! STORAGE_KEY = Some (Json (jobs w))
          /\ jobs (newInstance JSON_parse r) = jobs w)).
Proof.
  cbv zeta.
  assert (Hmem : forall l' w', same_memory (Fallible.calls host l' w').2
                                 (calls host l'.*1 w').2).
  { intros l' w'. now apply fallible_calls_memory. }
  assert (Hall : forall l' w', forallb snd l' = true ->
            (Fallible.calls host l' w').2 = (calls host l'.*1 w').2).
  { induction l' as [|[c accepted] l' IH]; intros w' H; [reflexivity|].
    simpl in H. apply andb_true_iff in H as [-> H].
    rewrite fallible_calls_cons. cbn [fmap list_fmap fst].
    rewrite calls_cons, call_accepted. now apply IH. }
  split_and!; [apply Hmem | apply Hall |].
  intros Hw.
  assert (Hk : exists k, (k <= length l)%nat
            /\ localStorage (Fallible.calls host l w).2 !! STORAGE_KEY =
               Some (Json (jobs (calls host (take k l.*1) w).2))).
  { destruct (fallible_calls_storage l w) as [E|(k & Hk & E)].
    - exists 0%nat. split; [lia|]. now rewrite E.
    - exists k. split; [lia|]. rewrite E, <- fmap_take.
      now destruct (Hmem (take k l) w) as (-> & _). }
  split_and!.
  - destruct Hk as (k & Hk & E). exists k.
    split_and!; [exact Hk | exact E | now apply newInstance_stored].
  - intros H. rewrite (Hall l w H).
    assert (G : forall l' w', in_sync w' -> in_sync (calls host l' w').2).
    { induction l' as [|c l' IH]; intros w' Hw'; [exact Hw'|].
      rewrite calls_cons. apply IH.
      destruct (call_effect host c w') as ([[Hj Hs]|Hs] & _); [|exact Hs].
      unfold in_sync in *. now rewrite Hs, Hj. }
    split; [now apply G | exact (newInstance_stored _ _ (G l.*1 w Hw))].
  - intros H.
    assert (E : localStorage (Fallible.calls host l w).2 !! STORAGE_KEY =
                localStorage w !! STORAGE_KEY).
    { clear Hk Hw. revert w.
      induction l as [|[c accepted] l IH]; intros w; [reflexivity|].
      simpl in H. apply andb_true_iff in H as [Ha H].
      destruct accepted; [discriminate|].
      rewrite fallible_calls_cons, (IH H).
      now apply (fallible_call_storage c false w). }
    split; [now rewrite E | apply newInstance_stored; now rewrite E].
Qed.

End Refused.

(** A record added while the storage refuses the write is in memory, and
    is not what a new instance loads; with the writes accepted the new
    instance loads what is in memory. *)
Lemma calls_persist_accepted_writes_witness :
  let refused :=
    (Fallible.calls SampleHost.host [(CallAdd Sample.reactJob, false)]
       Sample.catalog).2 in
  let accepted :=
    (Fallible.calls SampleHost.host
       [(CallAdd Sample.reactJob, true); (CallDelete "42", true)]
       Sample.catalog).2 in
  (jobs (newInstance (fun _ => None) refused) = jobs Sample.catalog
   /\ length (jobs refused) = 3%nat
   /\ length (jobs Sample.catalog) = 2%nat)
  /\ jobs (newInstance (fun _ => None) accepted) = jobs accepted.
Proof.
  cbv zeta. split_and!.
  - apply (calls_persist_accepted_writes SampleHost.host (fun _ => None)
             [(CallAdd Sample.reactJob, false)] Sample.catalog);
      reflexivity.
  - reflexivity.
  - reflexivity.
  - apply (calls_persist_accepted_writes SampleHost.host (fun _ => None)
             [(CallAdd Sample.reactJob, true); (CallDelete "42", true)]
             Sample.catalog); reflexivity.
Defined.

(** An authentication with the right passcode on a storage that refuses
    the write: the exception reaches the caller and no session is
    opened. *)
Example refused_authenticate_throws :
  let r := Fallible.authenticateAdmin false ADMIN_PASSCODE Sample.catalog in
  r.1 = None
  /\ r.2 = Sample.catalog
  /\ (isAdminAuthenticated r.2).1 = false.
Proof. cbv zeta. split_and!; vm_compute; reflexivity. Qed.

(** A deletion whose write is refused, after an addition whose write is
    accepted: the deleted record is gone from memory, and a new instance
    loads the collection as it was after the addition. *)
Example refused_delete_is_stale :
  let r :=
    (Fallible.calls SampleHost.host
       [(CallAdd Sample.reactJob, true); (CallDelete "42", false)]
       Sample.catalog).2 in
  Job.id <$> jobs r = ["job_1700000000000_k3j9x2m0"; "job_1"]
  /\ Job.id <$> jobs (newInstance (fun _ => None) r) =
     ["job_1700000000000_k3j9x2m0"; "job_1"; "42"].
Proof. cbv zeta. split; vm_compute; reflexivity. Qed.

(** ** Searching and recommending *)

Section Searching.

Variable host : Host.

Lemma searchJobs_view (query : string) (filters : JobFilters.t)
    (forceAPI : bool) (outcome : FetchOutcome) (w : World) :
  let r := searchJobs host query filters forceAPI outcome w in
  r.1 = List.filter (passes query filters) (jobs r.2)
  /\ (r.2 = w
      \/ exists apiJobs, r.2 = (syncJobsFromAPI host apiJobs w).2).
Proof.
  cbv zeta. unfold searchJobs.
  destruct forceAPI; cbn [negb];
    [destruct outcome as [|[|] [data|]]|]; unfold bind;
    rewrite ?getFilteredJobs_eq; simpl; try (split; [reflexivity | now left]).
  destruct (syncJobsFromAPI host (apiJobs_of data) w) as [[] w'] eqn:E.
  rewrite getFilteredJobs_eq. simpl.
  split; [reflexivity|]. right. exists (apiJobs_of data). now rewrite E.
Qed.

(** X18. Whatever the arguments and however the fetch ends, [searchJobs]
    returns the filtered view of the catalog that it leaves, and a local
    record that meets the query and the filters is in the catalog and in
    the result afterwards: a search never loses a local record. *)
Theorem searchJobs_keeps_locals (query : string) (filters : JobFilters.t)
    (forceAPI : bool) (outcome : FetchOutcome) (w : World) (job : Job.t) :
  let r := searchJobs host query filters forceAPI outcome w in
  r.1 = List.filter (passes query filters) (jobs r.2)
  /\ (In job (jobs w) -> Job.source job = admin ->
      In job (jobs r.2)
      /\ (passes query filters job = true -> In job r.1)).
Proof.
  cbv zeta.
  destruct (searchJobs_view query filters forceAPI outcome w) as [Hv Hs].
  split; [exact Hv|]. intros Hin Hsrc.
  assert (Hin' : In job (jobs (searchJobs host query filters forceAPI
                                 outcome w).2)).
  { destruct Hs as [->|[apiJobs ->]]; [assumption|].
    rewrite syncJobsFromAPI_eq. cbv zeta. simpl.
    apply in_or_app. left. apply List.filter_In. split; [assumption|].
    unfold is_admin. now rewrite Hsrc. }
  split; [exact Hin'|]. intros Hp. rewrite Hv.
  apply List.filter_In. now split.
Qed.

End Searching.

Lemma searchJobs_keeps_locals_witness :
  In Sample.stored
    (searchJobs SampleHost.host "react" Sample.remoteOnly true
       (Response true (Some (DataArray [Sample.untidy]))) Sample.catalog).1.
Proof.
  apply (searchJobs_keeps_locals SampleHost.host "react" Sample.remoteOnly
           true (Response true (Some (DataArray [Sample.untidy])))
           Sample.catalog Sample.stored);
    [now left | reflexivity | reflexivity].
Defined.

(** X19. [getRecommendedJobs] returns, in catalog order, the records one
    of whose skills contains one of the wanted skills, case ignored; with
    no wanted skill it returns the whole catalog; its second argument
    makes no difference, and it changes nothing. *)
Theorem getRecommendedJobs_matches (skills : list string)
    (experience : option string) (w : World) :
  (getRecommendedJobs skills experience w).2 = w
  /\ getRecommendedJobs skills experience w = getRecommendedJobs skills None w
  /\ (getRecommendedJobs [] experience w).1 = jobs w
  /\ sublist (getRecommendedJobs skills experience w).1 (jobs w)
  /\ (skills <> [] ->
      forall job,
        In job (getRecommendedJobs skills experience w).1 <->
        In job (jobs w)
        /\ exists wanted jobSkill,
             In wanted skills /\ In jobSkill (Job.skills job)
             /\ appears_in wanted jobSkill).
Proof.
  unfold getRecommendedJobs. rewrite !getFilteredJobs_eq. cbn [fst snd].
  split_and!; try reflexivity.
  - apply filter_true.
  - apply filter_sublist.
  - intros Hne job. rewrite List.filter_In.
    destruct skills as [|s rest]; [congruence|].
    change (passes "" (JobFilters.mk None None None None (Some (s :: rest)))
              job)
      with (existsb (fun skill =>
              existsb (fun jobSkill =>
                Str.includes (Str.toLowerCase jobSkill)
                             (Str.toLowerCase skill)) (Job.skills job))
              (s :: rest)).
    rewrite existsb_exists. split.
    + intros [Hin (wanted & Hw & Hex)]. split; [assumption|].
      apply existsb_exists in Hex as (jobSkill & Hs & Hinc).
      exists wanted, jobSkill. split_and!; try assumption.
      now apply includes_appears.
    + intros [Hin (wanted & jobSkill & Hw & Hs & Ha)]. split; [assumption|].
      exists wanted. split; [assumption|]. apply existsb_exists.
      exists jobSkill. split; [assumption | now apply includes_appears].
Qed.

(** The skills predicate with one and with several wanted skills. *)
Example getFilteredJobs_by_skills :
  ids (getFilteredJobs "" (JobFilters.mk None None None None (Some ["go"]))
         Sample.catalog).1 = ["42"]
  /\ ids (getFilteredJobs ""
            (JobFilters.mk None None None None (Some ["rust"; "css"]))
            Sample.catalog).1 = ["job_1"]
  /\ ids (getFilteredJobs "" (JobFilters.mk None None None None (Some []))
            Sample.catalog).1 = ["job_1"; "42"].
Proof. split_and!; reflexivity. Qed.

Lemma getRecommendedJobs_matches_witness :
  In Sample.stored
    (getRecommendedJobs ["REACT"] (Some "5 years") Sample.catalog).1.
Proof.
  destruct (getRecommendedJobs_matches ["REACT"] (Some "5 years")
              Sample.catalog) as (_ & _ & _ & _ & H).
  apply H; [discriminate|]. split; [now left|].
  exists "REACT", "React". split_and!; [now left | now left |].
  now exists "", "".
Defined.

(** ** The cache of the job service *)

(** X20. What [setCachedData] stored under a key is what [getCachedData]
    returns for that key until five minutes have passed on the clock, and
    nothing from then on; other keys are not affected. *)
Theorem cache_round_trip {A : Type} (cache : gmap string (A * Z))
    (stored now : Z) (key other : string) (data : A) :
  let cache' := setCachedData cache stored key data in
  (now - stored < 300000 -> getCachedData cache' now key = Some data)
  /\ (300000 <= now - stored -> getCachedData cache' now key = None)
  /\ (other <> key ->
      getCachedData cache' now other = getCachedData cache now other).
Proof.
  cbv zeta. unfold getCachedData, setCachedData, CACHE_DURATION.
  rewrite lookup_insert_eq. split_and!.
  - intros H. now destruct (Z.ltb_spec (now - stored) (5 * 60 * 1000)); [|lia].
  - intros H. now destruct (Z.ltb_spec (now - stored) (5 * 60 * 1000)); [lia|].
  - intros H. now rewrite lookup_insert_ne.
Qed.

Lemma cache_round_trip_witness :
  getCachedData (setCachedData (∅ : gmap string (nat * Z)) 1000 "jobs" 7%nat)
                300999 "jobs" = Some 7%nat
  /\ getCachedData (setCachedData (∅ : gmap string (nat * Z)) 1000 "jobs"
                      7%nat) 301000 "jobs" = None
  /\ getCachedData (setCachedData (∅ : gmap string (nat * Z)) 1000 "jobs"
                      7%nat) 2000 "stats" = None.
Proof.
  destruct (cache_round_trip (∅ : gmap string (nat * Z)) 1000 300999
              "jobs" "stats" 7%nat) as (H1 & _ & _).
  destruct (cache_round_trip (∅ : gmap string (nat * Z)) 1000 301000
              "jobs" "stats" 7%nat) as (_ & H2 & _).
  destruct (cache_round_trip (∅ : gmap string (nat * Z)) 1000 2000
              "jobs" "stats" 7%nat) as (_ & _ & H3).
  split_and!; [apply H1; lia | apply H2; lia | rewrite H3; [reflexivity|]].
  discriminate.
Defined.

(** ** What normalization produces *)

Lemma nonempty_append (a b : string) :
  Str.nonempty (a +:+ b) = Str.nonempty a || Str.nonempty b.
Proof. destruct a; [reflexivity | reflexivity]. Qed.

Lemma or_else_nonempty (a : option string) (d : string) :
  Str.nonempty d = true -> Str.nonempty (Str.or_else a d) = true.
Proof.
  intros Hd. unfold Str.or_else. destruct a as [s|]; [|assumption].
  now destruct (Str.nonempty s) eqn:E.
Qed.

Lemma truthy_nonempty (a : option string) (s : string) :
  Str.truthy a = Some s -> Str.nonempty s = true.
Proof.
  unfold Str.truthy, Str.or_opt. destruct a as [t|]; [|discriminate].
  destruct (Str.nonempty t) eqn:E; [|discriminate]. now intros [= <-].
Qed.

Section Normalized.

Variable host : Host.

Lemma formatDate_at_nonempty (now : Z) (dateString : string) :
  Str.nonempty (formatDate_at host now dateString) = true.
Proof.
  unfold formatDate_at.
  destruct (Num.eqb _ 1); [reflexivity|].
  destruct (Num.ltb _ 7); [now rewrite nonempty_append, orb_true_r|].
  destruct (Num.ltb _ 30); now rewrite nonempty_append, orb_true_r.
Qed.

(** The id that normalization gives to the payload at position [index]. *)
Lemma normalizeAPIJob_id (job : ApiJob.t) (index : nat) (w : World) :
  Job.id (normalizeAPIJob host job index w).1 =
  match Str.truthy (ApiJob.id job) with
  | Some s => s
  | None =>
      "api_job_" +:+ Num.string_of_Z (clock host (clock_reads w)) +:+ "_" +:+
      Num.string_of_Z (Z.of_nat index)
  end.
Proof.
  unfold normalizeAPIJob, formatDate, now_iso, Date_now, bind, ret.
  destruct (Str.truthy (ApiJob.id job)), (Str.truthy (ApiJob.created_at job));
    reflexivity.
Qed.

(** X21. Whatever the payload, the record that normalization makes of it
    has a non-empty id, title, company, location, type, experience, salary,
    description, posting-age label and url, and the provenance [api]. *)
Theorem normalizeAPIJob_fills_defaults (job : ApiJob.t) (index : nat)
    (w : World) :
  let r := (normalizeAPIJob host job index w).1 in
  Str.nonempty (Job.id r) = true
  /\ Str.nonempty (Job.title r) = true
  /\ Str.nonempty (Job.company r) = true
  /\ Str.nonempty (Job.location r) = true
  /\ Str.nonempty (Job.type r) = true
  /\ Str.nonempty (Job.experience r) = true
  /\ Str.nonempty (Job.salary r) = true
  /\ Str.nonempty (Job.description r) = true
  /\ Str.nonempty (Job.posted r) = true
  /\ Str.nonempty (Job.url r) = true
  /\ Job.source r = api.
Proof.
  cbv zeta. split.
  { rewrite normalizeAPIJob_id.
    destruct (Str.truthy (ApiJob.id job)) as [s|] eqn:E; [|reflexivity].
    now apply truthy_nonempty in E. }
  unfold normalizeAPIJob, formatDate, now_iso, Date_now, bind, ret.
  destruct (Str.truthy (ApiJob.id job)),
    (Str.truthy (ApiJob.created_at job)); simpl;
    split_and!; try reflexivity;
    try (apply or_else_nonempty; reflexivity);
    apply formatDate_at_nonempty.
Qed.

(** The record at position [k] of a normalized batch is made of the
    payload at position [k], with the index of that position. *)
Lemma normalizeFrom_lookup (apiJobs : list ApiJob.t) (start k : nat)
    (w : World) (job : ApiJob.t) :
  apiJobs !! k = Some job ->
  exists w',
    (normalizeFrom host start apiJobs w).1 !! k =
    Some (normalizeAPIJob host job (start + k) w').1.
Proof.
  revert start k w. induction apiJobs as [|first rest IH];
    intros start k w Hk; [discriminate|].
  rewrite normalizeFrom_cons. cbv zeta. simpl.
  destruct k as [|k]; simpl in *.
  - injection Hk as ->. exists w. now rewrite Nat.add_0_r.
  - destruct (IH (S start) k (normalizeAPIJob host first start w).2 Hk)
      as [w' Hw'].
    exists w'. rewrite Hw'. do 3 f_equal. lia.
Qed.

(** X22. Two payloads without an id of their own that stand at different
    positions of a batch get different ids: the position is part of the id
    that normalization makes up. *)
Theorem normalizeAPIJobs_made_up_ids_differ (apiJobs : list ApiJob.t)
    (w : World) (i j : nat) (p q : ApiJob.t) (a b : Job.t) :
  apiJobs !! i = Some p -> apiJobs !! j = Some q ->
  Str.truthy (ApiJob.id p) = None -> Str.truthy (ApiJob.id q) = None ->
  (normalizeAPIJobs host apiJobs w).1 !! i = Some a ->
  (normalizeAPIJobs host apiJobs w).1 !! j = Some b ->
  i <> j ->
  Job.id a <> Job.id b.
Proof.
  intros Hp Hq Tp Tq Ha Hb Hne E.
  destruct (normalizeFrom_lookup apiJobs 0 i w p Hp) as [wp Hwp].
  destruct (normalizeFrom_lookup apiJobs 0 j w q Hq) as [wq Hwq].
  unfold normalizeAPIJobs in Ha, Hb. rewrite Hwp in Ha. rewrite Hwq in Hb.
  injection Ha as <-. injection Hb as <-.
  rewrite !normalizeAPIJob_id, Tp, Tq in E. simpl in E.
  StrFacts.sapp. injection E as E.
  apply split_at_first in E as [_ E]; try apply string_of_Z_lacks.
  apply string_of_Z_inj in E. lia.
Qed.


End Normalized.

Lemma normalizeAPIJobs_made_up_ids_differ_witness :
  Job.id <$> (normalizeAPIJobs SampleHost.still_host
                [ApiJob.empty; ApiJob.empty] SampleHost.fresh).1 !! 0%nat <>
  Job.id <$> (normalizeAPIJobs SampleHost.still_host
                [ApiJob.empty; ApiJob.empty] SampleHost.fresh).1 !! 1%nat.
Proof.
  destruct ((normalizeAPIJobs SampleHost.still_host
               [ApiJob.empty; ApiJob.empty] SampleHost.fresh).1 !! 0%nat)
    as [a|] eqn:Ea; [|discriminate Ea].
  destruct ((normalizeAPIJobs SampleHost.still_host
               [ApiJob.empty; ApiJob.empty] SampleHost.fresh).1 !! 1%nat)
    as [b|] eqn:Eb; [|discriminate Eb].
  simpl. intros [= E]. revert E.
  apply (normalizeAPIJobs_made_up_ids_differ SampleHost.still_host
           [ApiJob.empty; ApiJob.empty] SampleHost.fresh 0 1
           ApiJob.empty ApiJob.empty a b); try reflexivity;
    [exact Ea | exact Eb | discriminate].
Defined.


(** ** More on queries *)

(** X24. Filtering is a projection that commutes: with the empty query
    and no predicate [getFilteredJobs] keeps every record; filtering a
    result again by the same conditions changes nothing; filtering by two
    sets of conditions gives the same list in either order; and a
    predicate that is the empty text, or an empty list of skills, is as if
    it were not given. *)
Theorem filterBy_laws (query query' : string) (filters filters' : JobFilters.t)
    (l : list Job.t) :
  filterBy "" JobFilters.empty l = l
  /\ filterBy query filters (filterBy query filters l) =
     filterBy query filters l
  /\ filterBy query filters (filterBy query' filters' l) =
     filterBy query' filters' (filterBy query filters l)
  /\ sublist (filterBy query filters l) l
  /\ filterBy query
       (JobFilters.mk (Some "") (Some "") (Some "")
                      (JobFilters.remote filters) (Some [])) l =
     filterBy query
       (JobFilters.mk None None None (JobFilters.remote filters) None) l.
Proof.
  rewrite !filterBy_passes. split_and!.
  - apply filter_true.
  - rewrite filter_filter. apply List.filter_ext. intros job.
    now destruct (passes query filters job).
  - rewrite !filter_filter. apply List.filter_ext. intros job.
    apply andb_comm.
  - apply filter_sublist.
  - reflexivity.
Qed.

(** X25. For a non-empty query without blank, every record that the
    catalog search of [getFilteredJobs] finds is also found by the search
    of the admin job manager, which looks at the location as well. *)
Theorem catalog_search_within_admin_search (query : string)
    (l : list Job.t) (job : Job.t) :
  Str.nonempty query = true -> Str.no_blank query = true ->
  In job (filterBy query JobFilters.empty l) ->
  In job (filterJobs l query).
Proof.
  intros Hne Hnb. rewrite filterBy_passes. unfold filterJobs. rewrite Hne.
  rewrite !List.filter_In. intros [Hin Hp]. split; [assumption|].
  unfold passes in Hp. simpl in Hp. rewrite Hne, !andb_true_r in Hp.
  rewrite searchableText_mentions in Hp
    by (now rewrite ?StrFacts.nonempty_toLowerCase,
          ?StrFacts.no_blank_toLowerCase).
  unfold mentions in Hp. unfold matchesTerm.
  repeat (apply orb_true_iff in Hp as [Hp|Hp]);
    rewrite Hp, ?orb_true_r; reflexivity.
Qed.

Lemma catalog_search_within_admin_search_witness :
  In Sample.stored (filterJobs (jobs Sample.catalog) "acme").
Proof.
  apply catalog_search_within_admin_search; [reflexivity | reflexivity |].
  vm_compute. now left.
Defined.

(** A query with a blank can match across two fields in the catalog
    search, where the admin search finds nothing. *)
Example catalog_search_across_fields :
  In Sample.stored (filterBy "acme build" JobFilters.empty
                      (jobs Sample.catalog))
  /\ filterJobs (jobs Sample.catalog) "acme build" = [].
Proof. split; [vm_compute; now left | reflexivity]. Qed.

Section Labels.

Variable host : Host.

(** X26. The age label depends on the distance between the timestamp and
    the clock only: a timestamp in the future is labelled like one equally
    far in the past.  A timestamp equal to the reading of the clock gives
    ["0 days ago"], and any other timestamp up to one day away, one
    millisecond included, gives ["1 day ago"]. *)
Theorem formatDate_at_distance (now ts ts' : Z) (s s' : string) :
  Date_parse host s = Int ts ->
  (Date_parse host s' = Int ts' -> Z.abs (now - ts') = Z.abs (now - ts) ->
   formatDate_at host now s' = formatDate_at host now s)
  /\ (ts = now -> formatDate_at host now s = "0 days ago")
  /\ (0 < Z.abs (now - ts) <= 86400000 ->
      formatDate_at host now s = "1 day ago").
Proof.
  intros Hs. split_and!.
  - intros Hs' Habs. unfold formatDate_at. rewrite Hs, Hs'. simpl.
    now rewrite Habs.
  - intros ->. unfold formatDate_at. rewrite Hs. simpl.
    now rewrite Z.sub_diag.
  - intros Hd. rewrite (formatDate_at_parsed host now ts s Hs). cbv zeta.
    pose proof (days_between_spec now ts) as Hspec. cbv zeta in Hspec.
    assert (days_between now ts = 1) as -> by lia. reflexivity.
Qed.

End Labels.

Lemma formatDate_at_distance_witness :
  formatDate_at SampleHost.host 1700000000000 "2023-11-14T22:13:20.001Z" =
  formatDate_at SampleHost.host 1700000000000 "2023-11-14T22:13:19.999Z"
  /\ formatDate_at SampleHost.host 1700000000000 "2023-11-14T22:13:20.000Z" =
     "0 days ago"
  /\ formatDate_at SampleHost.host 1700000000000 "2023-11-14T22:13:19.999Z" =
     "1 day ago".
Proof.
  destruct (formatDate_at_distance SampleHost.host 1700000000000
              1699999999999 1700000000001
              "2023-11-14T22:13:19.999Z" "2023-11-14T22:13:20.001Z"
              eq_refl) as (H1 & _ & H3).
  destruct (formatDate_at_distance SampleHost.host 1700000000000
              1700000000000 0 "2023-11-14T22:13:20.000Z" ""
              eq_refl) as (_ & H2 & _).
  split_and!; [apply H1; reflexivity | now apply H2 | apply H3; lia].
Defined.

(** ** Facts on the list fields of the admin form *)

Module FormFacts.
Import Form.

Lemma trimStart_head (s : string) :
  match trimStart s with
  | EmptyString => True
  | String c _ => Str.is_space c = false
  end.
Proof.
  induction s as [|c s IH]; simpl; [exact I|].
  destruct (Str.is_space c) eqn:E; [exact IH | exact E].
Qed.

Lemma trimEnd_cons (c : ascii) (s : string) :
  Str.is_space c = false ->
  exists rest, trimEnd (String c s) = String c rest.
Proof.
  intros Hc. simpl. destruct (trimEnd s) as [|d r].
  - rewrite Hc. now exists "".
  - now exists (String d r).
Qed.

Lemma trimEnd_last (s : string) (d : ascii) :
  Str.last_char (trimEnd s) = Some d -> Str.is_space d = false.
Proof.
  induction s as [|c s IH]; simpl; [discriminate|].
  destruct (trimEnd s) as [|e r] eqn:E.
  - destruct (Str.is_space c) eqn:Ec; simpl; [discriminate|].
    now intros [= <-].
  - exact IH.
Qed.

Lemma trim_trimmed (s : string) : Str.trimmed (trim s) = true.
Proof.
  unfold trim. pose proof (trimStart_head s) as Hh.
  pose proof (trimEnd_last (trimStart s)) as Hl.
  destruct (trimStart s) as [|c r] eqn:E; [reflexivity|].
  destruct (trimEnd_cons c r Hh) as [rest Hrest].
  rewrite Hrest in *. unfold Str.trimmed. rewrite Hh. simpl negb.
  destruct (Str.last_char (String c rest)) as [d|] eqn:El; [|reflexivity].
  now rewrite (Hl d eq_refl).
Qed.

Lemma trimEnd_id (s : string) :
  match Str.last_char s with
  | Some d => Str.is_space d = false
  | None => True
  end -> trimEnd s = s.
Proof.
  induction s as [|c s IH]; [reflexivity|]. intros H.
  destruct s as [|d r].
  - simpl in *. now rewrite H.
  - change (Str.last_char (String c (String d r)))
      with (Str.last_char (String d r)) in H.
    specialize (IH H). simpl in IH |- *. now rewrite IH.
Qed.

Lemma trim_id (s : string) : Str.trimmed s = true -> trim s = s.
Proof.
  unfold Str.trimmed, trim. destruct s as [|c r]; [reflexivity|].
  intros H. apply andb_true_iff in H as [Hc Hl].
  apply negb_true_iff in Hc.
  change (trimStart (String c r))
    with (if Str.is_space c then trimStart r else String c r).
  rewrite Hc. apply trimEnd_id.
  destruct (Str.last_char (String c r)); [|exact I].
  now apply negb_true_iff.
Qed.

Lemma trim_blank (s : string) : trim (String " " s) = trim s.
Proof. reflexivity. Qed.

Lemma split_nonempty (sep : ascii) (s : string) : split sep s <> [].
Proof.
  destruct s as [|c s]; simpl; [discriminate|].
  destruct (Ascii.eqb c sep); [discriminate|].
  destruct (split sep s); discriminate.
Qed.

Lemma split_cons (sep c : ascii) (s : string) :
  Ascii.eqb c sep = false ->
  split sep (String c s) =
  match split sep s with
  | piece :: pieces => String c piece :: pieces
  | [] => [String c EmptyString]
  end.
Proof. intros H. simpl. now rewrite H. Qed.

(** Splitting at the separator a text that starts with a piece without
    separator. *)
Lemma split_piece (sep : ascii) (a r : string) :
  Str.lacks sep a = true ->
  split sep (a +:+ String sep r) = a :: split sep r.
Proof.
  induction a as [|c a IH]; intros H; StrFacts.sapp.
  - simpl. now rewrite Ascii.eqb_refl.
  - simpl in H. apply andb_true_iff in H as [Hc Ha].
    apply negb_true_iff in Hc. rewrite split_cons by assumption.
    now rewrite (IH Ha).
Qed.

Lemma split_whole (sep : ascii) (a : string) :
  Str.lacks sep a = true -> split sep a = [a].
Proof.
  induction a as [|c a IH]; intros H; [reflexivity|].
  simpl in H. apply andb_true_iff in H as [Hc Ha].
  apply negb_true_iff in Hc. rewrite split_cons by assumption.
  now rewrite (IH Ha).
Qed.

Lemma parseList_showList_cons (a : string) (l : list string) :
  plain a = true -> forallb plain l = true ->
  List.map trim (split "," (showList (a :: l))) = a :: l.
Proof.
  revert a. induction l as [|b l IH]; intros a Ha Hl.
  - unfold plain in Ha. apply andb_true_iff in Ha as [Ha Hc].
    apply andb_true_iff in Ha as [_ Ht].
    unfold showList. simpl Str.join. rewrite split_whole by assumption.
    simpl. now rewrite trim_id.
  - simpl in Hl. apply andb_true_iff in Hl as [Hb Hl].
    specialize (IH b Hb Hl).
    unfold plain in Ha. apply andb_true_iff in Ha as [Ha Hc].
    apply andb_true_iff in Ha as [_ Ht].
    unfold showList in *.
    change (Str.join ", " (a :: b :: l))
      with (a +:+ String "," (String " " (Str.join ", " (b :: l)))).
    rewrite split_piece by assumption.
    rewrite split_cons by reflexivity.
    destruct (split "," (Str.join ", " (b :: l))) as [|piece pieces] eqn:E;
      [discriminate IH|].
    simpl in IH |- *. injection IH as Hp Hps.
    rewrite trim_id by assumption. rewrite trim_blank, Hp, Hps.
    reflexivity.
Qed.

End FormFacts.

(** X27. The lists that the admin form makes of its requirements and
    skills fields hold only entries that are not empty and have no blank
    at either end; an empty field gives the empty list; and a list of such
    entries without commas, shown in the form by [openEditModal], is read
    back as it was. *)
Theorem parseList_clean_round_trip (text : string) (l : list string) :
  clean_list (Form.parseList text) = true
  /\ Form.parseList "" = []
  /\ (forallb Form.plain l = true ->
      Form.parseList (Form.showList l) = l).
Proof.
  split_and!.
  - unfold clean_list, Form.parseList. apply forallb_forall.
    intros s Hs. apply List.filter_In in Hs as [Hin Hne].
    apply in_map_iff in Hin as (piece & <- & _).
    now rewrite Hne, FormFacts.trim_trimmed.
  - reflexivity.
  - intros Hl. destruct l as [|a l]; [reflexivity|].
    simpl in Hl. apply andb_true_iff in Hl as [Ha Hl].
    unfold Form.parseList.
    rewrite (FormFacts.parseList_showList_cons a l Ha Hl).
    apply filter_every. intros s [<-|Hin].
    + unfold Form.plain in Ha. apply andb_true_iff in Ha as [Ha _].
      now apply andb_true_iff in Ha as [Ha _].
    + rewrite forallb_forall in Hl. specialize (Hl s Hin).
      unfold Form.plain in Hl. apply andb_true_iff in Hl as [Hl _].
      now apply andb_true_iff in Hl as [Hl _].
Qed.

Lemma parseList_clean_round_trip_witness :
  Form.parseList (Form.showList ["React"; "Node JS"; "CSS"]) =
  ["React"; "Node JS"; "CSS"].
Proof.
  now apply (parseList_clean_round_trip "" ["React"; "Node JS"; "CSS"]).
Defined.

Example parseList_untidy :
  Form.parseList " React ,, Node JS ,	CSS,  " = ["React"; "Node JS"; "CSS"].
Proof. reflexivity. Qed.

(** ** Facts on the selection of the admin job manager *)

#[local] Set Warnings "-clear-no-such-hyp".

(** X28. Toggling the selection of a job changes whether that job is
    selected and nothing else, and toggling it twice restores the
    selection.  "Select all" on an empty selection selects the ids of the
    listed jobs, and pressed again it clears the selection when those ids
    are unique. *)
Theorem selection_toggles (selectedJobs : gset string) (jobId : string)
    (filteredJobs : list Job.t) :
  let toggled := Selection.toggleJobSelection selectedJobs jobId in
  (jobId ∈ toggled <-> jobId ∉ selectedJobs)
  /\ (forall other, other <> jobId ->
        (other ∈ toggled <-> other ∈ selectedJobs))
  /\ Selection.toggleJobSelection toggled jobId = selectedJobs
  /\ (filteredJobs <> [] ->
      forall id, id ∈ Selection.toggleSelectAll ∅ filteredJobs <->
                 id ∈ ids filteredJobs)
  /\ (NoDup (ids filteredJobs) ->
      Selection.toggleSelectAll
        (Selection.toggleSelectAll ∅ filteredJobs) filteredJobs = ∅).
Proof.
  cbv zeta. unfold Selection.toggleJobSelection. split_and!.
  - destruct (decide (jobId ∈ selectedJobs)); set_solver.
  - intros other Hne. destruct (decide (jobId ∈ selectedJobs)); set_solver.
  - destruct (decide (jobId ∈ selectedJobs)) as [Hin|Hout].
    + rewrite decide_False by set_solver.
      apply set_eq. intros x. destruct (decide (x = jobId)); set_solver.
    + rewrite decide_True by set_solver. set_solver.
  - intros Hne id. unfold Selection.toggleSelectAll.
    rewrite size_empty. destruct filteredJobs; [congruence|].
    cbn [length Nat.eqb]. unfold ids. now rewrite elem_of_list_to_set.
  - intros Hnd. unfold Selection.toggleSelectAll. rewrite size_empty.
    destruct filteredJobs as [|job rest]; [reflexivity|].
    cbn [length Nat.eqb].
    rewrite size_list_to_set by exact Hnd.
    unfold ids. now rewrite length_map, Nat.eqb_refl.
Qed.

Lemma selection_toggles_witness :
  Selection.toggleSelectAll
    (Selection.toggleSelectAll ∅ (jobs Sample.catalog))
    (jobs Sample.catalog) = ∅.
Proof.
  apply (selection_toggles ∅ "" (jobs Sample.catalog)). compute_done.
Defined.

(** ** Facts on market analytics *)

Module AnalyticsFacts.
Import Analytics.

Lemma get_bump_same (key : string) (count : list (string * nat)) :
  get key (bump key count) = S (get key count).
Proof.
  induction count as [|[k n] rest IH]; simpl.
  - now rewrite String.eqb_refl.
  - destruct (String.eqb k key) eqn:E; simpl; rewrite E; [reflexivity|].
    exact IH.
Qed.

Lemma get_bump_other (key other : string) (count : list (string * nat)) :
  other <> key -> get other (bump key count) = get other count.
Proof.
  intros Hne. induction count as [|[k n] rest IH]; simpl.
  - destruct (String.eqb_spec key other); [congruence | reflexivity].
  - destruct (String.eqb_spec k key) as [->|E]; simpl.
    + destruct (String.eqb_spec key other); [congruence | reflexivity].
    + now rewrite IH.
Qed.

Lemma keys_bump (key k : string) (count : list (string * nat)) :
  In k (List.map fst (bump key count)) <->
  k = key \/ In k (List.map fst count).
Proof.
  induction count as [|[k' n] rest IH]; simpl.
  - split; [intros [<-|[]]; now left | intros [->|[]]; now left].
  - destruct (String.eqb_spec k' key) as [->|E]; simpl.
    + split; [intros [<-|H]; [right; now left | right; now right]|].
      intros [->|[<-|H]]; [now left | now left | now right].
    + rewrite IH. tauto.
Qed.

Lemma NoDup_bump (key : string) (count : list (string * nat)) :
  NoDup (List.map fst count) -> NoDup (List.map fst (bump key count)).
Proof.
  induction count as [|[k n] rest IH]; simpl; intros H.
  - apply NoDup_singleton.
  - apply NoDup_cons in H as [Hk Hrest].
    destruct (String.eqb_spec k key) as [->|E]; simpl.
    + now apply NoDup_cons.
    + apply NoDup_cons. split; [|now apply IH].
      rewrite list_elem_of_In, keys_bump. intros [->|Hin]; [congruence|].
      now apply Hk, list_elem_of_In.
Qed.

Lemma In_get (k : string) (n : nat) (count : list (string * nat)) :
  NoDup (List.map fst count) -> In (k, n) count -> get k count = n.
Proof.
  induction count as [|[k' n'] rest IH]; simpl; intros Hnd Hin; [easy|].
  apply NoDup_cons in Hnd as [Hk Hrest].
  destruct Hin as [[= -> ->]|Hin].
  - now rewrite String.eqb_refl.
  - destruct (String.eqb_spec k' k) as [->|E]; [|now apply IH].
    exfalso. apply Hk, list_elem_of_In, in_map_iff. now exists (k, n).
Qed.

Lemma countKeys_snoc (keys : list string) (key : string) :
  countKeys (keys ++ [key]) = bump key (countKeys keys).
Proof. unfold countKeys. now rewrite fold_left_app. Qed.

Lemma occurrences_snoc (k key : string) (keys : list string) :
  occurrences k (keys ++ [key]) =
  (occurrences k keys + if String.eqb k key then 1 else 0)%nat.
Proof.
  unfold occurrences. rewrite List.filter_app, length_app. simpl.
  now destruct (String.eqb k key).
Qed.

Lemma countKeys_get (k : string) (keys : list string) :
  get k (countKeys keys) = occurrences k keys.
Proof.
  induction keys as [|key keys IH] using rev_ind; [reflexivity|].
  rewrite countKeys_snoc, occurrences_snoc.
  destruct (String.eqb_spec k key) as [->|E].
  - rewrite get_bump_same, IH. lia.
  - rewrite get_bump_other by assumption. rewrite IH. lia.
Qed.

Lemma countKeys_keys (k : string) (keys : list string) :
  In k (List.map fst (countKeys keys)) <-> In k keys.
Proof.
  induction keys as [|key keys IH] using rev_ind; [reflexivity|].
  rewrite countKeys_snoc, keys_bump, IH, in_app_iff. simpl. 
  split; [intros [->|H]; auto | intros [H|[->|[]]]; auto].
Qed.

Lemma countKeys_NoDup (keys : list string) :
  NoDup (List.map fst (countKeys keys)).
Proof.
  induction keys as [|key keys IH] using rev_ind; [apply NoDup_nil_2|].
  rewrite countKeys_snoc. now apply NoDup_bump.
Qed.

Lemma countKeys_entry (k : string) (n : nat) (keys : list string) :
  In (k, n) (countKeys keys) -> n = occurrences k keys /\ In k keys.
Proof.
  intros Hin. split.
  - rewrite <- countKeys_get. symmetry.
    apply In_get; [apply countKeys_NoDup | assumption].
  - apply countKeys_keys, in_map_iff. now exists (k, n).
Qed.

Lemma insert_Permutation (e : string * nat) (l : list (string * nat)) :
  insert e l ≡ₚ e :: l.
Proof.
  induction l as [|x l IH]; simpl; [reflexivity|].
  destruct (snd e <? snd x)%nat; [|reflexivity].
  rewrite IH. apply Permutation_swap.
Qed.

Lemma sortByCount_Permutation (l : list (string * nat)) :
  sortByCount l ≡ₚ l.
Proof.
  induction l as [|e l IH]; simpl; [reflexivity|].
  now rewrite insert_Permutation, IH.
Qed.

Lemma insert_sorted (e : string * nat) (l : list (string * nat)) :
  StronglySorted falling l ->
  StronglySorted falling (insert e l).
Proof.
  induction 1 as [|x l Hs IH Hall]; simpl.
  - constructor; constructor.
  - destruct (Nat.ltb_spec (snd e) (snd x)) as [Hlt|Hge].
    + constructor; [exact IH|].
      apply Forall_forall. intros y Hy.
      rewrite insert_Permutation in Hy.
      apply elem_of_cons in Hy as [->|Hy].
      * unfold falling. lia.
      * rewrite Forall_forall in Hall. now apply Hall.
    + constructor; [now constructor|].
      constructor; [exact Hge|].
      apply List.Forall_forall. intros y Hy.
      rewrite List.Forall_forall in Hall. specialize (Hall y Hy).
      unfold falling in *. lia.
Qed.

Lemma sortByCount_sorted (l : list (string * nat)) :
  StronglySorted falling (sortByCount l).
Proof.
  induction l as [|e l IH]; simpl; [constructor | now apply insert_sorted].
Qed.

Lemma sorted_app (l1 l2 : list (string * nat)) (x y : string * nat) :
  StronglySorted falling (l1 ++ l2) ->
  In x l1 -> In y l2 -> falling x y.
Proof.
  induction l1 as [|a l1 IH]; simpl; intros Hs Hx Hy; [easy|].
  inversion Hs as [|? ? Hs' Hall]; subst.
  destruct Hx as [->|Hx]; [|now apply IH].
  rewrite List.Forall_forall in Hall. apply Hall, in_or_app. now right.
Qed.

Lemma sorted_lookup (l : list (string * nat)) (i j : nat)
    (x y : string * nat) :
  StronglySorted falling l ->
  (i < j)%nat -> l !! i = Some x -> l !! j = Some y -> falling x y.
Proof.
  intros Hs Hlt Hi Hj.
  rewrite <- (take_drop j l) in Hs.
  apply (sorted_app (take j l) (drop j l)); [exact Hs| |].
  - apply list_elem_of_In, list_elem_of_lookup. exists i.
    now rewrite lookup_take_lt.
  - apply list_elem_of_In, list_elem_of_lookup. exists 0%nat.
    now rewrite lookup_drop, Nat.add_0_r.
Qed.

(** [topTen] of the counted keys ranks them. *)
Lemma topTen_ranks (keys : list string) : ranks keys (topTen (countKeys keys)).
Proof.
  unfold topTen. set (sorted := sortByCount (countKeys keys)).
  assert (Hperm : sorted ≡ₚ countKeys keys) by apply sortByCount_Permutation.
  assert (Hsorted : StronglySorted falling sorted)
    by apply sortByCount_sorted.
  assert (Hentry : forall k n, In (k, n) sorted ->
                     n = occurrences k keys /\ In k keys).
  { intros k n Hin. apply countKeys_entry.
    apply list_elem_of_In. rewrite <- Hperm. now apply list_elem_of_In. }
  assert (Hnd : NoDup (List.map fst sorted)).
  { rewrite Hperm. apply countKeys_NoDup. }
  assert (Htake : forall k, In k (List.map fst (firstn 10 sorted)) ->
                    In (k, occurrences k keys) (firstn 10 sorted)).
  { intros k Hin. apply in_map_iff in Hin as ([k' n] & <- & Hin).
    simpl. assert (Hin' : In (k', n) sorted)
      by (rewrite <- (firstn_skipn 10 sorted); apply in_or_app; now left).
    destruct (Hentry k' n Hin') as [-> _]. exact Hin. }
  unfold ranks. split_and!.
  - eapply sublist_NoDup; [exact Hnd|].
    rewrite <- (firstn_skipn 10 sorted) at 2. rewrite map_app.
    apply sublist_inserts_r. reflexivity.
  - rewrite length_map. apply firstn_le_length.
  - intros key Hin. apply Htake in Hin.
    apply (Hentry key (occurrences key keys)).
    rewrite <- (firstn_skipn 10 sorted). apply in_or_app. now left.
  - intros i j a b Hlt Hi Hj.
    rewrite list_lookup_fmap in Hi, Hj.
    destruct (firstn 10 sorted !! i) as [[ka na]|] eqn:Ei; [|discriminate].
    destruct (firstn 10 sorted !! j) as [[kb nb]|] eqn:Ej; [|discriminate].
    simpl in Hi, Hj. injection Hi as <-. injection Hj as <-.
    assert (Ha : In (ka, na) sorted).
    { rewrite <- (firstn_skipn 10 sorted). apply in_or_app. left.
      apply list_elem_of_In, list_elem_of_lookup. now exists i. }
    assert (Hb : In (kb, nb) sorted).
    { rewrite <- (firstn_skipn 10 sorted). apply in_or_app. left.
      apply list_elem_of_In, list_elem_of_lookup. now exists j. }
    destruct (Hentry ka na Ha) as [<- _]. destruct (Hentry kb nb Hb) as [<- _].
    assert (Hs10 : StronglySorted falling (firstn 10 sorted)).
    { rewrite <- (firstn_skipn 10 sorted) in Hsorted.
      clear -Hsorted. induction (firstn 10 sorted) as [|x l IH];
        [constructor|].
      simpl in Hsorted. inversion Hsorted as [|? ? Hs Hall]; subst.
      constructor; [now apply IH|].
      rewrite List.Forall_forall in *. intros y Hy. apply Hall.
      apply in_or_app. now left. }
    apply (sorted_lookup _ i j (ka, na) (kb, nb) Hs10 Hlt Ei Ej).
  - intros key other Hkey Hout Hother.
    apply Htake in Hother.
    assert (Hk : In (key, occurrences key keys) sorted).
    { apply countKeys_keys, in_map_iff in Hkey as ([k n] & Ek & Hin).
      simpl in Ek. subst k.
      destruct (countKeys_entry key n keys Hin) as [-> _].
      apply list_elem_of_In. rewrite Hperm. now apply list_elem_of_In. }
    rewrite <- (firstn_skipn 10 sorted) in Hk, Hsorted.
    apply in_app_or in Hk as [Hk|Hk].
    + exfalso. apply Hout, in_map_iff.
      now exists (key, occurrences key keys).
    + apply (sorted_app _ _ _ _ Hsorted Hother Hk).
  - intros Hfew key Hkey.
    assert (Hlen : length sorted = length (remove_dups keys)).
    { rewrite <- (length_map fst sorted). apply Permutation_length.
      apply NoDup_Permutation; [exact Hnd | apply NoDup_remove_dups|].
      intros k. rewrite elem_of_remove_dups. split.
      - intros H%list_elem_of_In.
        apply in_map_iff in H as ([k' n] & <- & Hin).
        destruct (Hentry k' n Hin) as [_ Hk]. now apply list_elem_of_In.
      - intros H%list_elem_of_In.
        apply countKeys_keys, in_map_iff in H as ([k' n] & <- & Hin).
        apply list_elem_of_In, in_map_iff. exists (k', n).
        split; [reflexivity|]. apply list_elem_of_In. rewrite Hperm.
        now apply list_elem_of_In. }
    rewrite firstn_all2 by lia.
    apply list_elem_of_In. rewrite Hperm. 
    now apply list_elem_of_In, countKeys_keys.
Qed.

End AnalyticsFacts.

(** X29. The analytics of the job market rank the skills and the companies
    of the catalog: the trending skills are at most ten different skills of
    the catalog in the order of falling number of occurrences, none of the
    skills left out occurs more often than one that is listed, and none is
    left out when there are at most ten; likewise the top companies over
    the company names.  The total is the number of records, and the call
    changes nothing. *)
Theorem getJobMarketAnalytics_ranks (w : World) :
  let a := (Analytics.getJobMarketAnalytics w).1 in
  (Analytics.getJobMarketAnalytics w).2 = w
  /\ Analytics.totalJobs a = length (jobs w)
  /\ Analytics.ranks (concat (List.map Job.skills (jobs w)))
                     (Analytics.trendingSkills a)
  /\ Analytics.ranks (List.map Job.company (jobs w))
                     (Analytics.topCompanies a).
Proof.
  cbv zeta. split_and!; try reflexivity;
    apply AnalyticsFacts.topTen_ranks.
Qed.

Example trending_skills_of_sample :
  Analytics.extractTrendingSkills
    (jobs Sample.catalog ++ [Sample.remote_one; Sample.remote_one]) =
  ["Go"; "React"; "CSS"].
Proof. reflexivity. Qed.

(** ** Facts on deleting from the admin job manager *)

(** X30. The count that [confirmDelete] reports never exceeds the number
    of records that left the catalog.  It is that number for the targets
    "multiple" and "all", and for the target "single" when the ids of the
    catalog are unique; with a second record of the same id, "single"
    removes both and reports one. *)
Theorem confirmDelete_reports (deleteTarget : DeleteTarget)
    (editingJob : option Job.t) (selectedJobs : gset string) (w : World) :
  let r := confirmDelete deleteTarget editingJob selectedJobs w in
  (length (jobs r.2) + r.1 <= length (jobs w))%nat
  /\ (deleteTarget <> single \/ NoDup (ids (jobs w)) ->
      length (jobs w) = (length (jobs r.2) + r.1)%nat).
Proof.
  cbv zeta. destruct deleteTarget; unfold confirmDelete.
  - destruct editingJob as [job|]; [|simpl; split; [lia | intros _; lia]].
    unfold bind, ret. rewrite deleteJob_eq. cbv zeta.
    pose proof (count_id_length (Job.id job) (jobs w)) as Hc.
    pose proof (filter_shorter_iff (Job.id job) (jobs w)) as Hs.
    destruct (_ <? _)%nat eqn:E; simpl.
    + apply Nat.ltb_lt in E. split; [lia|].
      intros [Hne|Hnd]; [congruence|].
      rewrite (count_id_unique _ _ Hnd) in Hc by now apply Hs. lia.
    + split; [lia|]. intros _. lia.
  - pose proof (deleteJobs_count (elements selectedJobs) w) as Hc.
    pose proof (deleteJobs_jobs (elements selectedJobs) w) as Hj.
    pose proof (List.filter_length
                  (fun job => includes_id (elements selectedJobs) (Job.id job))
                  (jobs w)) as Hlen.
    cbv beta in Hlen. rewrite Hj, Hc. split; [lia|]. intros _. lia.
  - unfold deleteAllJobs, bind, get_jobs, set_jobs, saveToStorage, setItem,
      ret. simpl. split; [lia|]. intros _. lia.
Qed.

Lemma confirmDelete_reports_witness :
  length (jobs Sample.catalog) =
  (length (jobs (confirmDelete single (Some Sample.remote_one) ∅
                   Sample.catalog).2)
   + (confirmDelete single (Some Sample.remote_one) ∅ Sample.catalog).1)%nat.
Proof.
  apply (confirmDelete_reports single (Some Sample.remote_one) ∅
           Sample.catalog).
  right. compute_done.
Defined.

(** With two records of one id, "single" removes both and reports one. *)
Example confirmDelete_single_of_two :
  let w := mkWorld [Sample.stored; Sample.stored] ∅ 0 0 in
  let r := confirmDelete single (Some Sample.stored) ∅ w in
  r.1 = 1%nat /\ jobs r.2 = [].
Proof. split; reflexivity. Qed.
